(** * generate-releases.js: the release-file generator, embedded and verified

    The script [scripts/generate-releases.js] walks the [repositories]
    directory for [metadata.json] descriptors, validates them, groups them by
    category and writes, into the [releases] directory, one manifest per
    category, [categories.json] and [releases.json]; it then removes the
    category manifests it did not write.

    Conventions of the embedding.
    - A JavaScript string is a [string], a character standing for a code
      unit below 256.
    - A value produced by [JSON.parse] is a [json]; a number carries the text
      [Number.prototype.toString] gives for it.
    - A JavaScript object is the list of its own properties in property order
      (array-index keys first, in ascending order, then the other keys in
      creation order).
    - A thrown exception is a [Throw]; the console and the [releases]
      directory are threaded through the monad [M]. *)

From stdpp Require Import gmap strings list fin_maps pretty sorting.
From Stdlib Require Import ZArith Ascii.

Open Scope Z_scope.

(** ** Completions: a value, or a thrown exception with its message *)

Inductive completion (A : Type) : Type :=
| Normal (a : A)
| Throw (message : string).
Arguments Normal {A} a.
Arguments Throw {A} message.

#[global] Instance completion_bind : MBind completion :=
  λ A B k c, match c with
             | Normal a => k a
             | Throw e => Throw e
             end.

Fixpoint cmapM {A B} (f : A → completion B) (l : list A) : completion (list B) :=
  match l with
  | [] => Normal []
  | x :: l' => y ← f x; ys ← cmapM f l'; Normal (y :: ys)
  end.

(** ** Strings *)

Definition ascii_eqb (a b : ascii) : bool := bool_decide (a = b).

Definition is_upper (c : ascii) : bool :=
  let n := N_of_ascii c in (65 <=? n)%N && (n <=? 90)%N.
Definition is_lower (c : ascii) : bool :=
  let n := N_of_ascii c in (97 <=? n)%N && (n <=? 122)%N.
Definition is_digit (c : ascii) : bool :=
  let n := N_of_ascii c in (48 <=? n)%N && (n <=? 57)%N.

(** The capital letters above the ASCII range: all of [À] to [Þ] but the
    multiplication sign. *)
Definition is_upper_latin (c : ascii) : bool :=
  let n := N_of_ascii c in (192 <=? n)%N && (n <=? 222)%N && negb (n =? 215)%N.

Definition lower_char (c : ascii) : ascii :=
  if is_upper c || is_upper_latin c then ascii_of_N (N_of_ascii c + 32) else c.

Fixpoint string_map (f : ascii → ascii) (s : string) : string :=
  match s with
  | EmptyString => EmptyString
  | String c rest => String (f c) (string_map f rest)
  end.

(** [s.toLowerCase()] *)
Definition toLowerCase (s : string) : string := string_map lower_char s.

(** [s.replace(/[^a-z0-9]/g, '-')] *)
Definition replaceNonAlnum (s : string) : string :=
  string_map (λ c, if is_lower c || is_digit c then c else "-"%char) s.

(** [s.replace(/\\/g, '/')] *)
Definition replaceBackslashes (s : string) : string :=
  string_map (λ c, if ascii_eqb c "\"%char then "/"%char else c) s.

(** [s.replace(/\/+/g, '/')]: of a run of slashes only the last is kept. *)
Fixpoint collapseSlashes (s : string) : string :=
  match s with
  | EmptyString => EmptyString
  | String c rest =>
      match rest with
      | String c' _ =>
          if ascii_eqb c "/"%char && ascii_eqb c' "/"%char
          then collapseSlashes rest
          else String c (collapseSlashes rest)
      | EmptyString => String c EmptyString
      end
  end.

Definition startsWith (s p : string) : bool := String.prefix p s.

Definition endsWith (s p : string) : bool :=
  String.prefix (String.rev p) (String.rev s).

(** [parts.join(sep)] on an array of strings *)
Fixpoint joinWith (sep : string) (parts : list string) : string :=
  match parts with
  | [] => ""
  | [p] => p
  | p :: rest => p +:+ sep +:+ joinWith sep rest
  end.

(** The decimal text of a length or a counter. *)
Definition showNat (n : nat) : string := pretty n.

(** An array index is the canonical decimal text of an integer below
    [2^32 - 1]; such keys come first, in numeric order, among the own
    properties of an object. *)
Fixpoint parseDigits (s : string) (acc : N) : option N :=
  match s with
  | EmptyString => Some acc
  | String c rest =>
      if is_digit c then parseDigits rest (10 * acc + (N_of_ascii c - 48))%N
      else None
  end.

Definition arrayIndex (s : string) : option N :=
  match s with
  | EmptyString => None
  | String c rest =>
      if ascii_eqb c "0"%char
      then (if bool_decide (rest = "") then Some 0%N else None)
      else match parseDigits s 0 with
           | Some n => if (n <? 4294967295)%N then Some n else None
           | None => None
           end
  end.

(** ** JSON values and objects *)

#[warnings="-register-all"]
Inductive json : Type :=
| JNull
| JBool (b : bool)
| JNum (text : string)
| JStr (s : string)
| JArr (items : list json)
| JObj (props : list (string * json)).

(** The own properties of an object, in property order. *)
Abbreviation object := (list (string * json)).

Section Properties.
Context {V : Type}.

Fixpoint getOwn (k : string) (o : list (string * V)) : option V :=
  match o with
  | [] => None
  | (k', v) :: rest => if bool_decide (k' = k) then Some v else getOwn k rest
  end.

Definition hasOwn (k : string) (o : list (string * V)) : bool :=
  match getOwn k o with Some _ => true | None => false end.

Fixpoint replaceOwn (k : string) (v : V) (o : list (string * V)) : list (string * V) :=
  match o with
  | [] => []
  | (k', v') :: rest =>
      if bool_decide (k' = k) then (k, v) :: rest
      else (k', v') :: replaceOwn k v rest
  end.

(** A new array-index key goes before the first key that is not an array
    index or is a larger one. *)
Fixpoint insertIndex (i : N) (k : string) (v : V) (o : list (string * V))
  : list (string * V) :=
  match o with
  | [] => [(k, v)]
  | (k', v') :: rest =>
      match arrayIndex k' with
      | Some j => if (j <? i)%N then (k', v') :: insertIndex i k v rest
                  else (k, v) :: o
      | None => (k, v) :: o
      end
  end.

(** [o[k] = v] on an ordinary object. *)
Definition setOwn (k : string) (v : V) (o : list (string * V)) : list (string * V) :=
  if hasOwn k o then replaceOwn k v o
  else match arrayIndex k with
       | Some i => insertIndex i k v o
       | None => o ++ [(k, v)]
       end.

(** The own properties left by a rest pattern that names [ks]. *)
Definition withoutKeys (ks : list string) (o : list (string * V)) : list (string * V) :=
  filter (λ kv, kv.1 ∉ ks) o.
End Properties.

(** The properties every object inherits from [Object.prototype]. *)
Definition objectPrototypeNames : list string :=
  [ "constructor"; "__defineGetter__"; "__defineSetter__"; "hasOwnProperty";
    "__lookupGetter__"; "__lookupSetter__"; "isPrototypeOf";
    "propertyIsEnumerable"; "toString"; "valueOf"; "__proto__";
    "toLocaleString" ].

Definition inherited (k : string) : bool := bool_decide (k ∈ objectPrototypeNames).

(** [ToString(v)], as a template literal or a property key applies it.  An
    object that has an own [toString] has no callable conversion left and the
    conversion throws. *)
Fixpoint ToString (v : json) : completion string :=
  match v with
  | JNull => Normal "null"
  | JBool true => Normal "true"
  | JBool false => Normal "false"
  | JNum text => Normal text
  | JStr s => Normal s
  | JArr items =>
      parts ← (fix elements (l : list json) : completion (list string) :=
                  match l with
                  | [] => Normal []
                  | x :: l' =>
                      p ← match x with JNull => Normal "" | _ => ToString x end;
                      ps ← elements l';
                      Normal (p :: ps)
                  end) items;
      Normal (joinWith "," parts)
  | JObj props =>
      if hasOwn "toString" props
      then Throw "Cannot convert object to primitive value"
      else Normal "[object Object]"
  end.

(** [value.join(separator)] on a value [JSON.parse] gave: an array has the
    method, and joins the texts of its elements, that of [null] empty. *)
Definition join (separator : string) (value : json) : completion string :=
  match value with
  | JArr items =>
      parts ← cmapM (λ x, match x with JNull => Normal "" | _ => ToString x end)
                    items;
      Normal (joinWith separator parts)
  | JNull => Throw "Cannot read properties of null (reading 'join')"
  | _ => Throw "validCategories.join is not a function"
  end.

(** A property read gives [undefined] for a missing property. *)
Definition ToStringOpt (v : option json) : completion string :=
  match v with
  | Some v => ToString v
  | None => Normal "undefined"
  end.

(** ** [JSON.stringify(value, null, 2)] *)

Definition hexDigit (n : N) : ascii :=
  if (n <? 10)%N then ascii_of_N (48 + n) else ascii_of_N (87 + n).

Definition escapeChar (c : ascii) : string :=
  let n := N_of_ascii c in
  if (n =? 8)%N then "\b"
  else if (n =? 9)%N then "\t"
  else if (n =? 10)%N then "\n"
  else if (n =? 12)%N then "\f"
  else if (n =? 13)%N then "\r"
  else if (n =? 34)%N then String "\"%char (String (ascii_of_N 34) "")
  else if (n =? 92)%N then "\\"
  else if (n <? 32)%N
       then "\u00" +:+ String (hexDigit (n / 16)) (String (hexDigit (n mod 16)) "")
  else String c "".

Fixpoint escapeString (s : string) : string :=
  match s with
  | EmptyString => EmptyString
  | String c rest => escapeChar c +:+ escapeString rest
  end.

Definition quoteJSONString (s : string) : string :=
  String (ascii_of_N 34) (escapeString s +:+ String (ascii_of_N 34) "").

Definition newline : string := String (ascii_of_N 10) "".

Fixpoint serialize (indent : string) (v : json) : string :=
  let inner := indent +:+ "  " in
  match v with
  | JNull => "null"
  | JBool true => "true"
  | JBool false => "false"
  | JNum text => text
  | JStr s => quoteJSONString s
  | JArr items =>
      match items with
      | [] => "[]"
      | _ =>
          "[" +:+ newline +:+ inner
          +:+ joinWith ("," +:+ newline +:+ inner)
                ((fix each (l : list json) : list string :=
                    match l with
                    | [] => []
                    | x :: l' => serialize inner x :: each l'
                    end) items)
          +:+ newline +:+ indent +:+ "]"
      end
  | JObj props =>
      match props with
      | [] => "{}"
      | _ =>
          "{" +:+ newline +:+ inner
          +:+ joinWith ("," +:+ newline +:+ inner)
                ((fix each (l : list (string * json)) : list string :=
                    match l with
                    | [] => []
                    | (k, x) :: l' =>
                        (quoteJSONString k +:+ ": " +:+ serialize inner x) :: each l'
                    end) props)
          +:+ newline +:+ indent +:+ "}"
      end
  end.

Definition JSON_stringify (v : json) : string := serialize "" v.

(** An object literal: a property whose value is [undefined] is left out of
    the text [JSON.stringify] writes. *)
Definition literal (fields : list (string * option json)) : json :=
  JObj (omap (λ kv, (λ v, (kv.1, v)) <$> kv.2) fields).

Definition jsonNat (n : nat) : json := JNum (showNat n).

(** ** The host and the environment of a run *)

(** What the script takes from the platform: the collation behind
    [String.prototype.localeCompare] and the [path] module. *)
Class Host : Type := {
  localeCompare : string → string → Z;
  path_join : list string → string;
  path_dirname : string → string;
}.

(** An entry of a directory listing read with [withFileTypes]. *)
#[warnings="-register-all"]
Inductive dirent : Type :=
| FileEntry (name : string)
| DirEntry (name : string) (items : list dirent).

(** The files a run reads, and the writes and removals the file system
    refuses (with the message of the error it raises).
    - [categoriesJson]: what reading and parsing [../categories.json] gives,
      the message of the error or the value;
    - [repositories]: the listing of [../repositories], if it exists;
    - [readJson]: what reading and parsing a descriptor file gives. *)
Record Env : Type := {
  scriptDir : string;
  categoriesJson : string + json;
  repositories : option (list dirent);
  readJson : string → string + json;
  writeError : string → option string;
  unlinkError : string → option string;
}.

Inductive event : Type :=
| ConsoleLog (line : string)
| ConsoleWarn (line : string)
| ConsoleError (line : string).

(** The [releases] directory: absent, or its files by name. *)
Abbreviation releasesDir := (option (gmap string string)).

(** ** The monad of the script: the [releases] directory as state, the
    console as output, exceptions as [Throw] *)

Definition M (A : Type) : Type := releasesDir → completion A * releasesDir * list event.

#[global] Instance M_ret : MRet M := λ A a d, (Normal a, d, []).

#[global] Instance M_bind : MBind M :=
  λ A B k m d,
    let '(r1, d1, out1) := m d in
    match r1 with
    | Normal a => let '(r2, d2, out2) := k a d1 in (r2, d2, out1 ++ out2)
    | Throw e => (Throw e, d1, out1)
    end.

Definition nothing : M unit := mret tt.
Definition console (e : event) : M unit := λ d, (Normal tt, d, [e]).
Definition consoleAll (es : list event) : M unit := λ d, (Normal tt, d, es).
Definition raise {A} (c : completion A) : M A := λ d, (c, d, []).

Fixpoint foldM {A S} (body : S → A → M S) (l : list A) (s : S) : M S :=
  match l with
  | [] => mret s
  | x :: l' => s' ← body s x; foldM body l' s'
  end.

Definition existsSync : M bool := λ d, (Normal (bool_decide (is_Some d)), d, []).

(** [fs.mkdirSync(releasesDir, { recursive: true })] *)
Definition mkdirSync : M unit :=
  λ d, (Normal tt, Some (default ∅ d), []).

(** [fs.readdirSync(releasesDir)] *)
Definition readdirSync : M (list string) :=
  λ d, match d with
       | Some files => (Normal (map_to_list files).*1, d, [])
       | None => (Throw "ENOENT: no such file or directory, scandir", d, [])
       end.

(** ** [Array.prototype.sort]

    The language leaves to the implementation in which order the comparator
    is called, asks for a stable sort, and stops at the first call that
    throws.  This is the insertion sort among the conforming ones; with a
    consistent comparator they all give the same array. *)

Section Sort.
Context {A : Type} (comparefn : A → A → completion Z).

Fixpoint insertSorted (x : A) (l : list A) : completion (list A) :=
  match l with
  | [] => Normal [x]
  | y :: l' =>
      c ← comparefn x y;
      if 0 <? c then ys ← insertSorted x l'; Normal (y :: ys)
      else Normal (x :: l)
  end.

Fixpoint arraySort (l : list A) : completion (list A) :=
  match l with
  | [] => Normal []
  | x :: l' => sorted ← arraySort l'; insertSorted x sorted
  end.
End Sort.

(** The entries of [categories.json] and of [releases.json]. *)
Record categoryCount : Type := {
  cc_name : string;
  cc_slug : string;
  cc_count : nat;
}.

Record releaseEntry : Type := {
  re_name : option json;
  re_version : option json;
  re_slug : string;
}.

(** [categorizedApps]: the arrays of descriptors by category. *)
Abbreviation groups := (list (string * list object)).

Section Script.
Context `{Host} (env : Env).

(** [try { fs.writeFileSync(path.join(releasesDir, name), text, 'utf8') }]:
    [None] when the write went through, the message of the error caught
    otherwise. *)
Definition writeFileSync (name text : string) : M (option string) :=
  λ d, match writeError env name, d with
       | Some e, _ => (Normal (Some e), d, [])
       | None, Some files => (Normal None, Some (<[name := text]> files), [])
       | None, None =>
           (Normal (Some "ENOENT: no such file or directory, open"), d, [])
       end.

(** [try { fs.unlinkSync(path.join(releasesDir, name)) }] *)
Definition unlinkSync (name : string) : M (option string) :=
  λ d, match unlinkError env name, d with
       | Some e, _ => (Normal (Some e), d, [])
       | None, Some files =>
           match files !! name with
           | Some _ => (Normal None, Some (delete name files), [])
           | None => (Normal (Some "ENOENT: no such file or directory, unlink"), d, [])
           end
       | None, None =>
           (Normal (Some "ENOENT: no such file or directory, unlink"), d, [])
       end.

(** *** findMetadataFiles *)

Fixpoint findMetadataFilesAt (dir : string) (item : dirent) : list string :=
  let fullPath := path_join [dir; match item with
                                  | FileEntry name => name
                                  | DirEntry name _ => name
                                  end] in
  match item with
  | DirEntry _ items => flat_map (findMetadataFilesAt fullPath) items
  | FileEntry name =>
      if bool_decide (name = "metadata.json") then [fullPath] else []
  end.

(** [listing] is [None] when [dir] does not exist. *)
Definition findMetadataFiles (dir : string) (listing : option (list dirent))
  : list string :=
  match listing with
  | None => []
  | Some items => flat_map (findMetadataFilesAt dir) items
  end.

(** *** loadMetadata *)

Definition requiredFields : list string :=
  ["name"; "category"; "description"; "version"; "commit"; "owner"; "repo"; "path"].

(** The test of the validation loop on a parsed object:
    [!(field in metadata) || metadata[field] === null
     || metadata[field] === undefined || metadata[field] === ''] *)
Definition missingOrEmpty (metadata : object) (field : string) : bool :=
  negb (hasOwn field metadata || inherited field)
  || match getOwn field metadata with
     | Some JNull => true
     | None => true
     | Some (JStr s) => bool_decide (s = "")
     | Some _ => false
     end.

Definition skipping (filePath reason : string) : event :=
  ConsoleWarn ("⚠️ Skipping " +:+ filePath +:+ ": " +:+ reason).

Definition missingField (field : string) : string :=
  "missing or empty field '" +:+ field +:+ "'".

(** The descriptor, or [None] for the [null] the function returns, with
    what it printed.  [in] throws on a primitive; an array has none of the
    required fields, so the loop stops at the first of them. *)
Definition loadMetadata (filePath : string) : option object * list event :=
  match readJson env filePath with
  | inl message => (None, [skipping filePath message])
  | inr (JObj metadata) =>
      match list_find (missingOrEmpty metadata) requiredFields with
      | Some (_, field) => (None, [skipping filePath (missingField field)])
      | None =>
          (Some (setOwn "filePath"
                   (JStr (replaceBackslashes (path_dirname filePath))) metadata),
           [])
      end
  | inr (JArr _) => (None, [skipping filePath (missingField "name")])
  | inr primitive =>
      (None,
       [skipping filePath
          ("Cannot use 'in' operator to search for 'name' in "
           +:+ match ToString primitive with Normal s => s | Throw _ => "" end)])
  end.

(** *** loadValidCategories *)

Definition loadValidCategories : json * list event :=
  match categoriesJson env with
  | inr value => (value, [])
  | inl message =>
      (JArr [], [ConsoleWarn ("⚠️ Could not load categories.json: " +:+ message)])
  end.

(** *** main *)

(** [a.name.localeCompare(b.name)]: the receiver has the method only if it
    is a string; the argument is converted to one. *)
Definition nameCompare (a b : option json) : completion Z :=
  match a with
  | Some (JStr s) => t ← ToStringOpt b; Normal (localeCompare s t)
  | Some JNull | None =>
      Throw "Cannot read properties of undefined (reading 'localeCompare')"
  | Some _ => Throw "a.name.localeCompare is not a function"
  end.

Definition appsByName (a b : object) : completion Z :=
  nameCompare (getOwn "name" a) (getOwn "name" b).

Definition countsByName (a b : categoryCount) : completion Z :=
  Normal (localeCompare (cc_name a) (cc_name b)).

Definition entriesByName (a b : releaseEntry) : completion Z :=
  nameCompare (re_name a) (re_name b).

(** [category.toLowerCase().replace(/[^a-z0-9]/g, '-')] *)
Definition categorySlug (category : string) : string :=
  replaceNonAlnum (toLowerCase category).

Definition releaseFileNameOf (category : string) : string :=
  "category-" +:+ categorySlug category +:+ ".json".

(** Lines 93-99: the descriptor joins the array of its category.  A
    category that names a property inherited from [Object.prototype] finds
    that property, which has no [push]. *)
Definition addToCategory (categorizedApps : groups) (metadata : object)
  : completion groups :=
  category ← ToStringOpt (getOwn "category" metadata);
  match getOwn category categorizedApps with
  | Some apps => Normal (replaceOwn category (apps ++ [metadata]) categorizedApps)
  | None =>
      if inherited category
      then Throw "categorizedApps[category].push is not a function"
      else Normal (setOwn category [metadata] categorizedApps)
  end.

(** Lines 90-105, one turn of the loop over [metadataFiles]. *)
Definition groupStep (st : groups * nat * nat) (filePath : string)
  : M (groups * nat * nat) :=
  let '(categorizedApps, processedCount, skippedCount) := st in
  let (loaded, out) := loadMetadata filePath in
  consoleAll out;;
  match loaded with
  | Some metadata =>
      categorizedApps' ← raise (addToCategory categorizedApps metadata);
      name ← raise (ToStringOpt (getOwn "name" metadata));
      category ← raise (ToStringOpt (getOwn "category" metadata));
      console (ConsoleLog ("✅ Added " +:+ name +:+ " to category '"
                           +:+ category +:+ "'"));;
      mret (categorizedApps', S processedCount, skippedCount)
  | None => mret (categorizedApps, processedCount, S skippedCount)
  end.

(** Lines 127-132: the rest of the destructuring, with the slug. *)
Definition cleanApp (app : object) : completion object :=
  let cleanApp :=
    withoutKeys ["commit"; "owner"; "repo"; "path"; "filePath"; "category"; "files"]
      app in
  owner ← ToStringOpt (getOwn "owner" app);
  repo ← ToStringOpt (getOwn "repo" app);
  name ← ToStringOpt (getOwn "name" app);
  Normal (setOwn "slug" (JStr (owner +:+ "/" +:+ repo +:+ "/" +:+ name)) cleanApp).

Definition releaseData (category : string) (apps : list object)
    (filteredApps : list object) : json :=
  JObj [("category", JStr category);
        ("count", jsonNat (length apps));
        ("apps", JArr (JObj <$> filteredApps))].

(** Lines 119-149, one turn of the loop over the categories.  The sort is
    in place: the array of [categorizedApps] is the one sorted. *)
Definition categoryStep (st : groups * list string * list string)
    (entry : string * list object) : M (groups * list string * list string) :=
  let '(categorizedApps, releaseFiles, categoriesWithReleases) := st in
  let (category, apps) := entry in
  let releaseFileName := releaseFileNameOf category in
  apps ← raise (arraySort appsByName apps);
  let categorizedApps := replaceOwn category apps categorizedApps in
  filteredApps ← raise (cmapM cleanApp apps);
  failure ← writeFileSync releaseFileName
              (JSON_stringify (releaseData category apps filteredApps));
  match failure with
  | None =>
      console (ConsoleLog ("📄 Generated " +:+ releaseFileName +:+ " with "
                           +:+ showNat (length apps) +:+ " apps"));;
      mret (categorizedApps, releaseFiles ++ [releaseFileName],
            categoriesWithReleases ++ [category])
  | Some message =>
      console (ConsoleError ("❌ Failed to write " +:+ releaseFileName +:+ ": "
                             +:+ message));;
      mret (categorizedApps, releaseFiles, categoriesWithReleases)
  end.

Definition groupSize (categorizedApps : groups) (category : string) : nat :=
  length (default [] (getOwn category categorizedApps)).

Definition countJson (c : categoryCount) : json :=
  JObj [("name", JStr (cc_name c)); ("slug", JStr (cc_slug c));
        ("count", jsonNat (cc_count c))].

Definition categoriesData (categorizedApps : groups)
    (categoriesWithReleases : list string)
    (categoriesWithCounts : list categoryCount) : json :=
  JObj [("totalCategories", jsonNat (length categoriesWithReleases));
        ("totalApps",
         jsonNat (foldl (λ sum apps, sum + length apps)%nat 0%nat categorizedApps.*2));
        ("categories", JArr (countJson <$> categoriesWithCounts))].

(** Lines 151-174. *)
Definition writeCategoriesIndex (categorizedApps : groups)
    (categoriesWithReleases : list string) : M unit :=
  if bool_decide (0 < length categoriesWithReleases)%nat then
    categoriesWithCounts ←
      raise (arraySort countsByName
               ((λ category, {| cc_name := category;
                                cc_slug := categorySlug category;
                                cc_count := groupSize categorizedApps category |})
                  <$> categoriesWithReleases));
    failure ← writeFileSync "categories.json"
                (JSON_stringify (categoriesData categorizedApps
                                   categoriesWithReleases categoriesWithCounts));
    match failure with
    | None =>
        console (ConsoleLog ("📄 Generated categories.json with "
                             +:+ showNat (length categoriesWithReleases)
                             +:+ " categories"))
    | Some message =>
        console (ConsoleError ("❌ Failed to write categories.json: " +:+ message))
    end
  else nothing.

(** Lines 184-191. *)
Definition releaseEntryOf (app : object) : completion releaseEntry :=
  owner ← ToStringOpt (getOwn "owner" app);
  repo ← ToStringOpt (getOwn "repo" app);
  path ← ToStringOpt (getOwn "path" app);
  name ← ToStringOpt (getOwn "name" app);
  Normal {| re_name := getOwn "name" app;
            re_version := getOwn "version" app;
            re_slug := collapseSlashes (owner +:+ "/" +:+ repo +:+ path +:+ name) |}.

Definition entryJson (e : releaseEntry) : json :=
  literal [("name", re_name e); ("version", re_version e);
           ("slug", Some (JStr (re_slug e)))].

Definition releasesData (allApps : list releaseEntry) : json :=
  JObj [("count", jsonNat (length allApps)); ("apps", JArr (entryJson <$> allApps))].

(** Lines 176-209. *)
Definition writeReleasesIndex (categorizedApps : groups) : M unit :=
  if bool_decide (0 < length categorizedApps.*1)%nat then
    allApps ← raise (cmapM releaseEntryOf (concat categorizedApps.*2));
    allApps ← raise (arraySort entriesByName allApps);
    failure ← writeFileSync "releases.json" (JSON_stringify (releasesData allApps));
    match failure with
    | None =>
        console (ConsoleLog ("📄 Generated releases.json with "
                             +:+ showNat (length allApps) +:+ " apps"))
    | Some message =>
        console (ConsoleError ("❌ Failed to write releases.json: " +:+ message))
    end
  else nothing.

Definition isCategoryFile (file : string) : bool :=
  startsWith file "category-" && endsWith file ".json".

(** Lines 215-224, one turn of the loop over the existing category files. *)
Definition removeStep (releaseFiles : list string) (_ : unit)
    (existingFile : string) : M unit :=
  if bool_decide (existingFile ∉ releaseFiles) then
    failure ← unlinkSync existingFile;
    match failure with
    | None => console (ConsoleLog ("🗑️ Removed obsolete file: " +:+ existingFile))
    | Some message =>
        console (ConsoleWarn ("⚠️ Could not remove " +:+ existingFile +:+ ": "
                              +:+ message))
    end
  else nothing.

(** Lines 211-224. *)
Definition removeObsolete (releaseFiles : list string) : M unit :=
  files ← readdirSync;
  foldM (removeStep releaseFiles) (filter isCategoryFile files) tt.

(** Lines 226-241. *)
Definition summary (categorizedApps : groups) (processedCount : nat)
    (releaseFiles : list string) : list event :=
  [ConsoleLog "";
   ConsoleLog "📋 Summary:";
   ConsoleLog ("   Categories: " +:+ showNat (length categorizedApps.*1));
   ConsoleLog ("   Total apps: " +:+ showNat processedCount);
   ConsoleLog ("   Release files: " +:+ showNat (length releaseFiles))]
  ++ (if bool_decide (0 < length releaseFiles)%nat
      then [ConsoleLog ""; ConsoleLog "📄 Generated files:"]
           ++ ((λ file, ConsoleLog ("   - " +:+ file)) <$> releaseFiles)
      else [])
  ++ [ConsoleLog "✅ Release file generation complete!"].

(** Lines 109-114. *)
Definition ensureReleasesDir : M unit :=
  present ← existsSync;
  if (present : bool) then nothing
  else mkdirSync;; console (ConsoleLog "📁 Created releases directory").

(** Lines 107-241: what the run does with the groups. *)
Definition publish (categorizedApps : groups) (processedCount skippedCount : nat)
  : M unit :=
  console (ConsoleLog ("📊 Processed: " +:+ showNat processedCount
                       +:+ ", Skipped: " +:+ showNat skippedCount));;
  ensureReleasesDir;;
  '(categorizedApps, releaseFiles, categoriesWithReleases) ←
    foldM categoryStep categorizedApps (categorizedApps, [], []);
  writeCategoriesIndex categorizedApps categoriesWithReleases;;
  writeReleasesIndex categorizedApps;;
  removeObsolete releaseFiles;;
  consoleAll (summary categorizedApps processedCount releaseFiles).

(** Lines 85-241: the run once descriptor files were found. *)
Definition generate (metadataFiles : list string) : M unit :=
  '(categorizedApps, processedCount, skippedCount) ←
    foldM groupStep metadataFiles ([], 0%nat, 0%nat);
  publish categorizedApps processedCount skippedCount.

Definition main : M unit :=
  console (ConsoleLog "🔄 Generating release files...");;
  let (validCategories, out) := loadValidCategories in
  consoleAll out;;
  listed ← raise (join ", " validCategories);
  console (ConsoleLog ("📋 Valid categories: " +:+ listed));;
  let repositoriesDir := path_join [scriptDir env; ".."; "repositories"] in
  let metadataFiles := findMetadataFiles repositoriesDir (repositories env) in
  console (ConsoleLog ("📁 Found " +:+ showNat (length metadataFiles)
                       +:+ " metadata files"));;
  if bool_decide (length metadataFiles = 0%nat) then
    console (ConsoleLog
               "ℹ️ No metadata files found. No release files will be generated.")
  else generate metadataFiles.

(** Lines 244-248: the script runs [main]; when [main] fails it prints the
    error and exits with status 1. *)
Definition script : releasesDir → nat * releasesDir * list event :=
  λ d, let '(r, d', out) := main d in
       match r with
       | Normal _ => (0%nat, d', out)
       | Throw e => (1%nat, d', out ++ [ConsoleError ("❌ Script failed: " +:+ e)])
       end.
End Script.

(** ** Observations of a run *)

Definition resultOf {A} (run : completion A * releasesDir * list event) : completion A :=
  run.1.1.
Definition dirOf {A} (run : completion A * releasesDir * list event) : releasesDir :=
  run.1.2.
Definition outputOf {A} (run : completion A * releasesDir * list event) : list event :=
  run.2.

(** The text of a file of the [releases] directory, if there is one. *)
Definition fileIn (d : releasesDir) (file : string) : option string :=
  d ≫= (λ files, files !! file).

(** [m] takes every directory to one related to it, however it ends. *)
Definition preserves (R : relation releasesDir) {A} (m : M A) : Prop :=
  ∀ d, R d (dirOf (m d)).

(** The files a list of successful writes leaves, the later write winning. *)
Definition writeAll (writes : list (string * string)) (files : gmap string string)
  : gmap string string :=
  foldl (λ files w, <[w.1 := w.2]> files) files writes.

(** Files that are not category manifests stay (perhaps rewritten). *)
Definition keepsOthers (d d' : releasesDir) : Prop :=
  ∀ file, isCategoryFile file = false →
    is_Some (fileIn d file) → is_Some (fileIn d' file).

(** Files that are not category manifests are as they were. *)
Definition sameOthers (d d' : releasesDir) : Prop :=
  ∀ file, isCategoryFile file = false → fileIn d' file = fileIn d file.

(** ** The words of the specification *)

(** "Lowercased, non [[a-z0-9]] characters replaced one-for-one with [-]". *)
Definition sanitizedChar (c : ascii) : ascii :=
  let l := lower_char c in
  if is_lower l || is_digit l then l else "-"%char.

(** "Any run of consecutive slashes collapsed to one": the string is cut into
    its maximal runs of slashes and of other characters, and each run of
    slashes gives one slash. *)
Definition isSlash (c : ascii) : bool := ascii_eqb c "/"%char.

Fixpoint maximalRuns (s : list ascii) : list (list ascii) :=
  match s with
  | [] => []
  | c :: rest =>
      match maximalRuns rest with
      | (c' :: run) :: runs =>
          if bool_decide (isSlash c = isSlash c')
          then (c :: c' :: run) :: runs
          else [c] :: (c' :: run) :: runs
      | _ => [[c]]
      end
  end.

Definition collapseRun (run : list ascii) : list ascii :=
  match run with
  | c :: _ => if isSlash c then ["/"%char] else run
  | [] => []
  end.

Definition collapseRuns (s : string) : string :=
  String.string_of_list_ascii
    (concat (collapseRun <$> maximalRuns (String.list_ascii_of_string s))).

(** The fixed order of the required fields, and what makes one missing. *)
Definition absentOrEmpty (metadata : object) (field : string) : Prop :=
  getOwn field metadata = None
  ∨ getOwn field metadata = Some JNull
  ∨ getOwn field metadata = Some (JStr "").

(** The fields the category manifest leaves out. *)
Definition strippedFields : list string :=
  ["commit"; "owner"; "repo"; "path"; "filePath"; "category"; "files"].

(** Non-decreasing by name: each entry's name, as a string, is not after the
    next one's in the order of [localeCompare]. *)
Definition nameLe `{Host} (a b : option json) : Prop :=
  ∃ s t, ToStringOpt a = Normal s ∧ ToStringOpt b = Normal t
         ∧ localeCompare s t ≤ 0.



(** ** Hosts and inputs to run the script on *)

Definition signOf (c : comparison) : Z :=
  match c with Lt => -1 | Eq => 0 | Gt => 1 end.

Fixpoint dropWhile {A} (p : A → bool) (l : list A) : list A :=
  match l with
  | [] => []
  | x :: l' => if p x then dropWhile p l' else l
  end.

(** [path.dirname] of the POSIX flavour. *)
Definition posixDirname (path : string) : string :=
  match String.list_ascii_of_string path with
  | [] => "."
  | first :: body =>
      let afterSlashes := dropWhile isSlash (reverse body) in
      match dropWhile (λ c, negb (isSlash c)) afterSlashes with
      | [] => if isSlash first then "/" else "."
      | _ :: before =>
          if isSlash first && bool_decide (before = []) then "//"
          else String.string_of_list_ascii (first :: reverse before)
      end
  end.

(** A host that collates by code unit. *)
Definition codeUnitHost : Host := {|
  localeCompare a b := signOf (String.compare a b);
  path_join := joinWith "/";
  path_dirname := posixDirname;
|}.


Definition descriptor (name category version commit owner repo path : string)
  : object :=
  [("name", JStr name); ("category", JStr category); ("version", JStr version);
   ("commit", JStr commit); ("owner", JStr owner); ("repo", JStr repo);
   ("path", JStr path); ("description", JStr "d")].

(** An environment with one directory, holding a [metadata.json], for each
    of the listed values; nothing is refused. *)
Definition envOf (files : list (string * json)) : Env := {|
  scriptDir := "/app/scripts";
  categoriesJson := inl "ENOENT: no such file or directory, open";
  repositories :=
    Some ((λ f, DirEntry f.1 [FileEntry "metadata.json"]) <$> files);
  readJson filePath :=
    match list_find
            (λ f, "/app/scripts/../repositories/" +:+ f.1 +:+ "/metadata.json"
                  = filePath) files with
    | Some (_, f) => inr f.2
    | None => inl "ENOENT: no such file or directory, open"
    end;
  writeError _ := None;
  unlinkError _ := None;
|}.

(** The two descriptors of the end-to-end scenario. *)
Definition fooBarEnv : Env :=
  envOf [("foo", JObj (descriptor "Foo" "Tools" "1.0" "abc" "o1" "r1" "/a/"));
         ("bar", JObj (descriptor "Bar" "Tools" "2.0" "def" "o2" "r2" "/b/"))].

(** No [repositories] directory. *)
Definition noRepositoriesEnv : Env := {|
  scriptDir := "/app/scripts";
  categoriesJson := inr (JArr [JStr "Tools"]);
  repositories := None;
  readJson _ := inl "ENOENT: no such file or directory, open";
  writeError _ := None;
  unlinkError _ := None;
|}.

(** One descriptor, without a version. *)
Definition noVersionEnv : Env :=
  envOf [("foo", JObj [("name", JStr "Foo"); ("category", JStr "Tools");
                       ("description", JStr "d"); ("version", JStr "");
                       ("commit", JStr "abc"); ("owner", JStr "o1");
                       ("repo", JStr "r1")])].

(** One descriptor, of the category [constructor]. *)
Definition constructorEnv : Env :=
  envOf [("foo", JObj (descriptor "Foo" "constructor" "1.0" "abc" "o1" "r1" "/a/"))].


(** A descriptor with fields of its own named [location] and [files]. *)
Definition locatedDescriptor : object :=
  descriptor "gizmo" "Tools" "1.0" "abc" "acme" "widgets" "/g/"
  ++ [("location", JStr "attic"); ("files", JArr [JStr "gizmo.js"])].

Definition locatedEnv : Env := envOf [("gizmo", JObj locatedDescriptor)].

(** A [releases] directory left by an earlier run. *)
Definition staleDir : releasesDir :=
  Some {[ "category-games.json" := "{}"; "categories.json" := "{}";
          "releases.json" := "{}" ]}.

(** The environment with another outcome for the allow-list. *)
Definition withCategoriesJson (env : Env) (outcome : string + json) : Env := {|
  scriptDir := scriptDir env;
  categoriesJson := outcome;
  repositories := repositories env;
  readJson := readJson env;
  writeError := writeError env;
  unlinkError := unlinkError env;
|}.

(** How a run ended and what it left in the directory. *)
Definition effectOf {A} (run : completion A * releasesDir * list event)
  : completion A * releasesDir := run.1.

(** The outcome of the grouping loop had one more file been skipped. *)
Definition skippedOneMore
    (run : completion (groups * nat * nat) * releasesDir * list event)
  : completion (groups * nat * nat) * releasesDir * list event :=
  (match run.1.1 with
   | Normal (categorizedApps, processedCount, skippedCount) =>
       Normal (categorizedApps, processedCount, S skippedCount)
   | Throw e => Throw e
   end, run.1.2, run.2).

(** The entries of a text written by the run are in the order of their
    names: a category manifest, the Releases Index. *)
Definition sortedManifest `{Host} (text : string) : Prop :=
  ∃ category apps filteredApps,
    text = JSON_stringify (releaseData category apps filteredApps)
    ∧ Sorted (λ a b, nameLe (getOwn "name" a) (getOwn "name" b)) filteredApps.

Definition sortedReleases `{Host} (text : string) : Prop :=
  ∃ allApps,
    text = JSON_stringify (releasesData allApps)
    ∧ Sorted (λ a b, nameLe (re_name a) (re_name b)) allApps.

Definition sortedText `{Host} (file text : string) : Prop :=
  (isCategoryFile file → sortedManifest text)
  ∧ (file = "releases.json" → sortedReleases text).

(** Every file of [d'] was in [d] with the same text or has sorted entries. *)
Definition sortedOrOld `{Host} (d d' : releasesDir) : Prop :=
  ∀ file text, fileIn d' file = Some text →
    fileIn d file = Some text ∨ sortedText file text.

(** What the removal of obsolete files removes: the category files the run
    did not write and the file system lets go. *)
Definition removable (env : Env) (releaseFiles : list string) (file : string) : Prop :=
  isCategoryFile file ∧ (file ∉ releaseFiles) ∧ unlinkError env file = None.

Definition withoutObsolete (env : Env) (releaseFiles : list string)
    (files : gmap string string) : gmap string string :=
  filter (λ entry, ¬ removable env releaseFiles entry.1) files.




#[global] Instance completion_eq_dec {A} `{EqDecision A} : EqDecision (completion A).
Proof. solve_decision. Defined.

(** The descriptor declares the category [category]: that is the key its
    [category] field gives. *)
Definition hasCategory (category : string) (metadata : object) : Prop :=
  ToStringOpt (getOwn "category" metadata) = Normal category.

#[global] Instance hasCategory_dec category metadata :
  Decision (hasCategory category metadata).
Proof. unfold hasCategory. apply _. Defined.

(** The descriptors that load, in the order of their files. *)
Definition loadedDescriptors `{Host} (env : Env) (metadataFiles : list string)
  : list object :=
  omap (λ filePath, (loadMetadata env filePath).1) metadataFiles.

Definition nonEmpty {A} (l : list A) : option (list A) :=
  match l with [] => None | _ => Some l end.

(** [categorizedApps] holds, for each category, the descriptors of [loaded]
    that declare it, in their order, and holds nothing else. *)
Definition grouped (categorizedApps : groups) (loaded : list object) : Prop :=
  NoDup categorizedApps.*1
  ∧ (∀ category,
       getOwn category categorizedApps = nonEmpty (filter (hasCategory category) loaded))
  ∧ concat categorizedApps.*2 ≡ₚ loaded.

(** The manifests the loop over the categories writes, once the arrays are
    sorted: one for each category whose file is not refused. *)
Definition manifestWrites `{Host} (env : Env) (categorizedApps : groups)
  : list (string * string) :=
  omap (λ entry,
          match writeError env (releaseFileNameOf entry.1), cmapM cleanApp entry.2 with
          | None, Normal filteredApps =>
              Some (releaseFileNameOf entry.1,
                    JSON_stringify (releaseData entry.1 entry.2 filteredApps))
          | _, _ => None
          end) categorizedApps.

(** A category of the loop with its array once sorted: the same key, the
    array the sort gives, which the projection to entries accepts. *)
Definition sortedGroup `{Host} (entry entry' : string * list object) : Prop :=
  entry'.1 = entry.1
  ∧ arraySort appsByName entry.2 = Normal entry'.2
  ∧ ∃ filteredApps, cmapM cleanApp entry'.2 = Normal filteredApps.

(** The write of the Releases Index, when it is made. *)
Definition releasesWrite `{Host} (env : Env) (categorizedApps : groups)
  : list (string * string) :=
  if bool_decide (0 < length categorizedApps.*1)%nat then
    match allApps ← cmapM releaseEntryOf (concat categorizedApps.*2);
          arraySort entriesByName allApps,
          writeError env "releases.json" with
    | Normal allApps, None =>
        [("releases.json", JSON_stringify (releasesData allApps))]
    | _, _ => []
    end
  else [].

(** The entries of the Releases Index can be built and sorted. *)
Definition indexable `{Host} (categorizedApps : groups) : Prop :=
  ∃ allApps sorted,
    cmapM releaseEntryOf (concat categorizedApps.*2) = Normal allApps
    ∧ arraySort entriesByName allApps = Normal sorted.

(** The descriptor files the run finds. *)
Definition metadataFilesOf `{Host} (env : Env) : list string :=
  findMetadataFiles (path_join [scriptDir env; ".."; "repositories"])
    (repositories env).

(** The two descriptors of the scenario, on a file system that refuses the
    write of [category-tools.json]. *)
Definition refusedManifestEnv : Env := {|
  scriptDir := scriptDir fooBarEnv;
  categoriesJson := categoriesJson fooBarEnv;
  repositories := repositories fooBarEnv;
  readJson := readJson fooBarEnv;
  writeError name :=
    if bool_decide (name = "category-tools.json")
    then Some "EACCES: permission denied, open" else None;
  unlinkError _ := None;
|}.

(** The replacement of [/\/+/g] on a list of characters. *)
Fixpoint collapseList (s : list ascii) : list ascii :=
  match s with
  | [] => []
  | c :: rest =>
      match rest with
      | c' :: _ => if isSlash c && isSlash c' then collapseList rest
                   else c :: collapseList rest
      | [] => [c]
      end
  end.

(** The allow-list can be printed: line 73 returns on what was loaded. *)
Definition printable (env : Env) : Prop :=
  ∃ listed, join ", " (loadValidCategories env).1 = Normal listed.

(** ** Further properties: their words *)

(** Every file below a directory, with its name and its path, in the order
    of the walk. *)
Fixpoint filesAt `{Host} (dir : string) (item : dirent) : list (string * string) :=
  match item with
  | FileEntry name => [(name, path_join [dir; name])]
  | DirEntry name items => flat_map (filesAt (path_join [dir; name])) items
  end.

Definition filesBelow `{Host} (dir : string) (listing : option (list dirent))
  : list (string * string) :=
  match listing with
  | None => []
  | Some items => flat_map (filesAt dir) items
  end.

Definition isMetadataFile (file : string * string) : Prop := file.1 = "metadata.json".

#[global] Instance isMetadataFile_dec file : Decision (isMetadataFile file).
Proof. unfold isMetadataFile. apply _. Defined.

(** The field is there with a value other than [null] and the empty
    string. *)
Definition filled (metadata : object) (field : string) : Prop :=
  ∃ v, getOwn field metadata = Some v ∧ v ≠ JNull ∧ v ≠ JStr "".

(** No slash of the string is followed by another. *)
Definition noDoubleSlash (s : string) : Prop :=
  ∀ i, String.get i s = Some "/"%char → String.get (S i) s ≠ Some "/"%char.


(** Every file of [d'] was in [d] with the same text, or has a text that
    [written] accepts under its name. *)
Definition asBeforeOr (written : string → string → Prop) (d d' : releasesDir) : Prop :=
  ∀ file text, fileIn d' file = Some text →
    fileIn d file = Some text ∨ written file text.



(** The categories whose manifest the file system lets the run write. *)
Definition writableCategories (env : Env) (categories : list string) : list string :=
  filter (λ category, writeError env (releaseFileNameOf category) = None) categories.

(** The two descriptors of the scenario, with an allow-list that parses to
    an object. *)
Definition objectAllowListEnv : Env :=
  withCategoriesJson fooBarEnv (inr (JObj [("categories", JArr [JStr "Tools"])])).

(** The two descriptors of the scenario, on a file system that refuses the
    removal of [category-games.json]. *)
Definition lockedEnv : Env := {|
  scriptDir := scriptDir fooBarEnv;
  categoriesJson := categoriesJson fooBarEnv;
  repositories := repositories fooBarEnv;
  readJson := readJson fooBarEnv;
  writeError _ := None;
  unlinkError name :=
    if bool_decide (name = "category-games.json")
    then Some "EPERM: operation not permitted, unlink" else None;
|}.

(** A [releases] directory that holds a manifest of the category [Tools]. *)
Definition toolsDir : releasesDir := Some {[ "category-tools.json" := "{}" ]}.

(** * Verification *)

(** ** The monad *)

Section Monad.
Context {A B : Type}.

Lemma bind_eq (m : M A) (k : A → M B) d :
  (m ≫= k) d =
    match m d with
    | (Normal a, d1, out1) =>
        match k a d1 with (r2, d2, out2) => (r2, d2, out1 ++ out2) end
    | (Throw e, d1, out1) => (Throw e, d1, out1)
    end.
Proof.
  unfold mbind, M_bind. destruct (m d) as [[[a|e] d1] out1]; [|done].
  by destruct (k a d1) as [[r2 d2] out2].
Qed.

Lemma bind_normal (m : M A) (k : A → M B) d a d1 out1 :
  m d = (Normal a, d1, out1) →
  (m ≫= k) d = ((k a d1).1, out1 ++ (k a d1).2).
Proof. intros Hm. rewrite bind_eq, Hm. by destruct (k a d1) as [[r2 d2] out2]. Qed.

Lemma bind_throw (m : M A) (k : A → M B) d e d1 out1 :
  m d = (Throw e, d1, out1) → (m ≫= k) d = (Throw e, d1, out1).
Proof. intros Hm. by rewrite bind_eq, Hm. Qed.
End Monad.

Section Preserves.
Context (R : relation releasesDir) `{!PreOrder R}.

Lemma preserves_ret {A} (a : A) : preserves R (mret a).
Proof. intros d. reflexivity. Qed.

Lemma preserves_nothing : preserves R nothing.
Proof. intros d. reflexivity. Qed.

Lemma preserves_console e : preserves R (console e).
Proof. intros d. reflexivity. Qed.

Lemma preserves_consoleAll es : preserves R (consoleAll es).
Proof. intros d. reflexivity. Qed.

Lemma preserves_raise {A} (c : completion A) : preserves R (raise c).
Proof. intros d. reflexivity. Qed.

Lemma preserves_existsSync : preserves R existsSync.
Proof. intros d. reflexivity. Qed.

Lemma preserves_readdirSync : preserves R readdirSync.
Proof. intros [files|]; reflexivity. Qed.

Lemma preserves_bind {A B} (m : M A) (k : A → M B) :
  preserves R m → (∀ a, preserves R (k a)) → preserves R (m ≫= k).
Proof.
  intros Hm Hk d. specialize (Hm d). rewrite bind_eq.
  destruct (m d) as [[[a|e] d1] out1]; [|done].
  specialize (Hk a d1). destruct (k a d1) as [[r2 d2] out2].
  unfold dirOf in *; simpl in *. by etrans.
Qed.

Lemma preserves_foldM {A S} (body : S → A → M S) l s :
  (∀ s x, x ∈ l → preserves R (body s x)) → preserves R (foldM body l s).
Proof.
  revert s. induction l as [|x l IH]; intros s Hbody; simpl.
  - apply preserves_ret.
  - apply preserves_bind; [apply Hbody; left|].
    intros s'. apply IH. intros ???. apply Hbody. by right.
Qed.
End Preserves.

(** Takes a computation apart along its binds and closes the steps that
    leave the directory alone. *)
Ltac frame :=
  repeat first
    [ by apply preserves_ret | by apply preserves_nothing
    | by apply preserves_console | by apply preserves_consoleAll
    | by apply preserves_raise | by apply preserves_existsSync
    | by apply preserves_readdirSync
    | lazymatch goal with
      | |- preserves _ (_ ≫= _) => apply preserves_bind; [assumption| |intros ?]
      | |- preserves _ (match ?x with pair _ _ => _ end) => is_var x; destruct x
      end ].

Lemma preserves_bind_raise (R : relation releasesDir) `{!PreOrder R} {A B}
    (c : completion A) (k : A → M B) :
  (∀ a, c = Normal a → preserves R (k a)) → preserves R (raise c ≫= k).
Proof.
  intros Hk d. rewrite bind_eq. unfold raise. destruct c as [a|e]; [|reflexivity].
  specialize (Hk a eq_refl d). destruct (k a d) as [[r2 d2] out2]. exact Hk.
Qed.

(** ** A frame rule for the run

    A preorder on directories that making the directory, the writes allowed
    by [okWrite] and the removal of category files respect is respected by
    the whole run, whether it returns or throws, provided every text the run
    writes is allowed. *)

Section Frame.
Context `{Host} (env : Env).
Context (R : relation releasesDir) `{!PreOrder R}.
Context (okWrite : string → string → Prop).
Hypothesis R_mkdir : ∀ d, R d (Some (default ∅ d)).
Hypothesis R_write : ∀ files name text,
  okWrite name text → R (Some files) (Some (<[name := text]> files)).
Hypothesis R_unlink : ∀ files name,
  isCategoryFile name → R (Some files) (Some (delete name files)).
Hypothesis ok_manifest : ∀ category apps sorted filteredApps,
  arraySort appsByName apps = Normal sorted →
  cmapM cleanApp sorted = Normal filteredApps →
  okWrite (releaseFileNameOf category)
    (JSON_stringify (releaseData category sorted filteredApps)).
Hypothesis ok_categories : ∀ categorizedApps categoriesWithReleases counts,
  arraySort countsByName
    ((λ category, {| cc_name := category; cc_slug := categorySlug category;
                     cc_count := groupSize categorizedApps category |})
       <$> categoriesWithReleases) = Normal counts →
  okWrite "categories.json"
    (JSON_stringify (categoriesData categorizedApps categoriesWithReleases counts)).
Hypothesis ok_releases : ∀ apps entries sorted,
  cmapM releaseEntryOf apps = Normal entries →
  arraySort entriesByName entries = Normal sorted →
  okWrite "releases.json" (JSON_stringify (releasesData sorted)).

Lemma preserves_writeFileSync name text :
  okWrite name text → preserves R (writeFileSync env name text).
Proof.
  intros Hok d. unfold writeFileSync, dirOf.
  destruct (writeError env name); [reflexivity|].
  destruct d as [files|]; simpl; [by apply R_write | reflexivity].
Qed.

Lemma preserves_unlinkSync name :
  isCategoryFile name → preserves R (unlinkSync env name).
Proof.
  intros Hcat d. unfold unlinkSync, dirOf.
  destruct (unlinkError env name); [reflexivity|].
  destruct d as [files|]; simpl; [|reflexivity].
  destruct (files !! name); simpl; [by apply R_unlink | reflexivity].
Qed.

Lemma preserves_mkdirSync : preserves R mkdirSync.
Proof. intros d. apply R_mkdir. Qed.

Lemma preserves_groupStep st filePath : preserves R (groupStep env st filePath).
Proof.
  unfold groupStep. destruct st as [[categorizedApps processedCount] skippedCount].
  destruct (loadMetadata env filePath) as [[metadata|] out]; frame.
Qed.

Lemma preserves_categoryStep st entry : preserves R (categoryStep env st entry).
Proof.
  unfold categoryStep.
  destruct st as [[categorizedApps releaseFiles] categoriesWithReleases].
  destruct entry as [category apps].
  apply preserves_bind_raise; [done|]. intros sorted Hsorted.
  apply preserves_bind_raise; [done|]. intros filteredApps Hfiltered.
  frame; [|case_match; frame].
  apply preserves_writeFileSync. by eapply ok_manifest.
Qed.

Lemma preserves_writeCategoriesIndex categorizedApps categoriesWithReleases :
  preserves R (writeCategoriesIndex env categorizedApps categoriesWithReleases).
Proof.
  unfold writeCategoriesIndex. case_bool_decide; [|frame].
  apply preserves_bind_raise; [done|]. intros counts Hcounts.
  frame; [|case_match; frame].
  apply preserves_writeFileSync. by apply ok_categories.
Qed.

Lemma preserves_writeReleasesIndex categorizedApps :
  preserves R (writeReleasesIndex env categorizedApps).
Proof.
  unfold writeReleasesIndex. case_bool_decide; [|frame].
  apply preserves_bind_raise; [done|]. intros entries Hentries.
  apply preserves_bind_raise; [done|]. intros sorted Hsorted.
  frame; [|case_match; frame].
  apply preserves_writeFileSync. by eapply ok_releases.
Qed.

Lemma preserves_removeObsolete releaseFiles :
  preserves R (removeObsolete env releaseFiles).
Proof.
  unfold removeObsolete. frame.
  apply preserves_foldM; [done|].
  intros [] existingFile Hin. apply list_elem_of_filter in Hin as [Hcat _].
  unfold removeStep. case_bool_decide; frame; [|case_match; frame].
  by apply preserves_unlinkSync.
Qed.

Lemma preserves_publish categorizedApps processedCount skippedCount :
  preserves R (publish env categorizedApps processedCount skippedCount).
Proof.
  unfold publish. frame.
  - unfold ensureReleasesDir. frame. case_match; frame. apply preserves_mkdirSync.
  - apply preserves_foldM; [done|]. intros ???. apply preserves_categoryStep.
  - apply preserves_writeCategoriesIndex.
  - apply preserves_writeReleasesIndex.
  - apply preserves_removeObsolete.
Qed.

Lemma preserves_generate metadataFiles : preserves R (generate env metadataFiles).
Proof.
  unfold generate. frame.
  - apply preserves_foldM; [done|]. intros ???. apply preserves_groupStep.
  - apply preserves_publish.
Qed.

Lemma preserves_main : preserves R (main env).
Proof.
  unfold main. destruct (loadValidCategories env) as [validCategories out].
  frame. case_bool_decide; frame. apply preserves_generate.
Qed.
End Frame.

(** ** What the removal of obsolete files leaves alone (C10) *)

#[local] Instance keepsOthers_preorder : PreOrder keepsOthers.
Proof.
  split; [by intros d file|].
  intros d1 d2 d3 H12 H23 file Hcat Hin. by apply H23, H12.
Qed.

#[local] Instance sameOthers_preorder : PreOrder sameOthers.
Proof.
  split; [by intros d file|].
  intros d1 d2 d3 H12 H23 file Hcat. by rewrite H23, H12.
Qed.

Lemma fileIn_mkdir d file : fileIn (Some (default ∅ d)) file = fileIn d file.
Proof. destruct d as [files|]; simpl; [done | apply lookup_empty]. Qed.

Lemma isCategoryFile_delete (files : gmap string string) name file :
  isCategoryFile name → isCategoryFile file = false →
  delete name files !! file = files !! file.
Proof.
  intros Hname Hfile. apply lookup_delete_ne. intros ->.
  rewrite Hfile in Hname. done.
Qed.

Lemma keepsOthers_main `{Host} env d : keepsOthers d (dirOf (main env d)).
Proof.
  apply (preserves_main env keepsOthers (λ _ _, True)); try done.
  - intros d' file _. by rewrite fileIn_mkdir.
  - intros files name text _ file _; simpl.
    destruct (decide (name = file)) as [->|Hne].
    + by rewrite lookup_insert_eq.
    + by rewrite lookup_insert_ne.
  - intros files name Hname file Hfile; simpl.
    by rewrite isCategoryFile_delete.
Qed.

Lemma sameOthers_removeObsolete `{Host} env releaseFiles d :
  sameOthers d (dirOf (removeObsolete env releaseFiles d)).
Proof.
  apply (preserves_removeObsolete env sameOthers).
  intros files name Hname file Hfile; simpl. by rewrite isCategoryFile_delete.
Qed.

Section Runs.
Context {A B : Type}.

Lemma dirOf_bind (m : M A) (k : A → M B) d a d1 out1 :
  m d = (Normal a, d1, out1) → dirOf ((m ≫= k) d) = dirOf (k a d1).
Proof. intros Hm. by rewrite (bind_normal _ _ _ _ _ _ Hm). Qed.

Lemma resultOf_bind (m : M A) (k : A → M B) d a d1 out1 :
  m d = (Normal a, d1, out1) → resultOf ((m ≫= k) d) = resultOf (k a d1).
Proof. intros Hm. by rewrite (bind_normal _ _ _ _ _ _ Hm). Qed.
End Runs.

(** A file that does not load is counted as skipped and nothing else
    happens. *)
Lemma groupStep_skip `{Host} env categorizedApps processedCount skippedCount filePath d :
  (loadMetadata env filePath).1 = None →
  groupStep env (categorizedApps, processedCount, skippedCount) filePath d
  = (Normal (categorizedApps, processedCount, S skippedCount), d,
     (loadMetadata env filePath).2).
Proof.
  intros Hload. unfold groupStep.
  destruct (loadMetadata env filePath) as [loaded out]; simpl in *; subst loaded.
  rewrite bind_eq; simpl. by rewrite app_nil_r.
Qed.

Lemma groupStep_all_skipped `{Host} env metadataFiles categorizedApps processedCount
    skippedCount d :
  (∀ filePath, filePath ∈ metadataFiles → (loadMetadata env filePath).1 = None) →
  ∃ out,
    foldM (groupStep env) metadataFiles (categorizedApps, processedCount, skippedCount) d
    = (Normal (categorizedApps, processedCount,
               (skippedCount + length metadataFiles)%nat), d, out).
Proof.
  revert skippedCount.
  induction metadataFiles as [|filePath rest IH]; intros skippedCount Hall;
    cbn [foldM length].
  - exists []. by rewrite Nat.add_0_r.
  - destruct (IH (S skippedCount)) as [out Hrest].
    { intros ??. apply Hall. by right. }
    eexists. rewrite bind_eq, groupStep_skip by (apply Hall; left).
    rewrite Hrest. by rewrite Nat.add_succ_r.
Qed.

Lemma ensureReleasesDir_run d :
  ∃ out, ensureReleasesDir d = (Normal (), Some (default ∅ d), out).
Proof. destruct d as [files|]; by eexists. Qed.

(** When no descriptor loads the run writes nothing. *)
Lemma sameOthers_generate_all_skipped `{Host} env metadataFiles d :
  (∀ filePath, filePath ∈ metadataFiles → (loadMetadata env filePath).1 = None) →
  sameOthers d (dirOf (generate env metadataFiles d)).
Proof.
  intros Hall.
  destruct (groupStep_all_skipped env metadataFiles [] 0%nat 0%nat d Hall)
    as [out Hgroup].
  destruct (ensureReleasesDir_run d) as [out' Hensure].
  unfold generate. rewrite (dirOf_bind _ _ _ _ _ _ Hgroup). unfold publish.
  erewrite dirOf_bind by reflexivity.
  rewrite (dirOf_bind _ _ _ _ _ _ Hensure).
  trans (Some (default ∅ d) : releasesDir).
  { intros file _. by rewrite fileIn_mkdir. }
  erewrite dirOf_bind by reflexivity. cbv beta iota.
  erewrite dirOf_bind by reflexivity.
  erewrite dirOf_bind by reflexivity.
  etrans; [apply (sameOthers_removeObsolete env [])|].
  destruct (removeObsolete env [] (Some (default ∅ d))) as [[[[]|e] d1] out1] eqn:Hrem.
  - erewrite dirOf_bind by exact Hrem. reflexivity.
  - rewrite (bind_throw _ _ _ _ _ _ Hrem). reflexivity.
Qed.

(** C10. The removal touches category files only: a file of the [releases]
    directory whose name does not both start with [category-] and end with
    [.json] is still there after the run, however the run ends; such are
    [categories.json] and [releases.json]; and in a run in which no
    descriptor loads, which writes neither index, they keep their text. *)
Theorem C10_removal_spares_other_files `{Host} env d file :
  isCategoryFile file = false →
  (is_Some (fileIn d file) → is_Some (fileIn (dirOf (main env d)) file))
  ∧ ((∀ filePath,
        filePath ∈ findMetadataFiles
                     (path_join [scriptDir env; ".."; "repositories"])
                     (repositories env) →
        (loadMetadata env filePath).1 = None) →
     fileIn (dirOf (main env d)) file = fileIn d file)
  ∧ isCategoryFile "categories.json" = false
  ∧ isCategoryFile "releases.json" = false.
Proof.
  intros Hfile. split; [by apply keepsOthers_main|]. split; [|done].
  intros Hall. unfold main.
  destruct (loadValidCategories env) as [validCategories out].
  do 2 (erewrite dirOf_bind by reflexivity).
  destruct (join ", " validCategories) as [listed|e]; [|done].
  do 3 (erewrite dirOf_bind by reflexivity).
  case_bool_decide; [done|].
  by apply sameOthers_generate_all_skipped.
Qed.

(** ** Objects *)

Section Objects.
Context {V : Type}.
Implicit Types (o : list (string * V)) (k : string) (v : V).

Lemma hasOwn_false k o : hasOwn k o = false → getOwn k o = None.
Proof. unfold hasOwn. by destruct (getOwn k o). Qed.

Lemma getOwn_replaceOwn k v o k' :
  hasOwn k o = true →
  getOwn k' (replaceOwn k v o) = if decide (k = k') then Some v else getOwn k' o.
Proof.
  unfold hasOwn. induction o as [|[k1 v1] o IH]; simpl; [done|].
  case_bool_decide as Hk1; simpl.
  - subst k1. intros _. by repeat (case_bool_decide || case_decide).
  - intros Ho. rewrite IH by done.
    by repeat (case_bool_decide || case_decide); simplify_eq.
Qed.

Lemma getOwn_insertIndex i k v o k' :
  getOwn k o = None →
  getOwn k' (insertIndex i k v o) = if decide (k = k') then Some v else getOwn k' o.
Proof.
  induction o as [|[k1 v1] o IH]; simpl.
  - intros _. by repeat (case_bool_decide || case_decide).
  - case_bool_decide as Hk1; [done|]. intros Ho.
    destruct (arrayIndex k1) as [j|]; [destruct (j <? i)%N|]; simpl;
      rewrite ?IH by done;
      by repeat (case_bool_decide || case_decide); simplify_eq.
Qed.

Lemma getOwn_app k o1 o2 :
  getOwn k (o1 ++ o2) = match getOwn k o1 with
                        | Some v => Some v
                        | None => getOwn k o2
                        end.
Proof.
  induction o1 as [|[k1 v1] o1 IH]; simpl; [done|]. by case_bool_decide.
Qed.

(** Reading after [o[k] = v]. *)
Lemma getOwn_setOwn k v o k' :
  getOwn k' (setOwn k v o) = if decide (k = k') then Some v else getOwn k' o.
Proof.
  unfold setOwn. destruct (hasOwn k o) eqn:Hhas.
  - by apply getOwn_replaceOwn.
  - apply hasOwn_false in Hhas. destruct (arrayIndex k) as [i|].
    + by apply getOwn_insertIndex.
    + rewrite getOwn_app; simpl. case_decide as Hk.
      * subst k'. rewrite Hhas. by rewrite bool_decide_true.
      * rewrite bool_decide_false by done. by destruct (getOwn k' o).
Qed.

(** Reading what a rest pattern left. *)
Lemma getOwn_withoutKeys ks o k :
  getOwn k (withoutKeys ks o) = if decide (k ∈ ks) then None else getOwn k o.
Proof.
  unfold withoutKeys. induction o as [|[k1 v1] o IH].
  - simpl. by case_decide.
  - rewrite filter_cons. cbn [fst]. destruct (decide (k1 ∉ ks)) as [Hk1|Hk1]; cbn [getOwn].
    + rewrite IH. by repeat (case_bool_decide || case_decide); simplify_eq.
    + rewrite IH. apply dec_stable in Hk1.
      by repeat (case_bool_decide || case_decide); simplify_eq.
Qed.
End Objects.

(** ** File names of the category manifests (C9) *)

Lemma string_map_length f s : String.length (string_map f s) = String.length s.
Proof. induction s as [|c s IH]; simpl; [done | by rewrite IH]. Qed.

Lemma string_map_get f s i :
  String.get i (string_map f s) = f <$> String.get i s.
Proof.
  revert i. induction s as [|c s IH]; intros i; simpl; [done|].
  destruct i; simpl; [done | apply IH].
Qed.

Lemma string_map_map f g s :
  string_map f (string_map g s) = string_map (λ c, f (g c)) s.
Proof. induction s as [|c s IH]; simpl; [done | by rewrite IH]. Qed.

Lemma categorySlug_chars category :
  categorySlug category = string_map sanitizedChar category.
Proof. unfold categorySlug, replaceNonAlnum, toLowerCase. by rewrite string_map_map. Qed.

(** The step of a category, run. *)
Lemma categoryStep_run `{Host} env categorizedApps releaseFiles categoriesWithReleases
    category apps d :
  categoryStep env (categorizedApps, releaseFiles, categoriesWithReleases)
    (category, apps) d
  = match arraySort appsByName apps with
    | Throw e => (Throw e, d, [])
    | Normal sorted =>
        match cmapM cleanApp sorted with
        | Throw e => (Throw e, d, [])
        | Normal filteredApps =>
            let name := releaseFileNameOf category in
            let text := JSON_stringify (releaseData category sorted filteredApps) in
            let categorizedApps := replaceOwn category sorted categorizedApps in
            let failed message :=
              (Normal (categorizedApps, releaseFiles, categoriesWithReleases), d,
               [ConsoleError ("❌ Failed to write " +:+ name +:+ ": " +:+ message)]) in
            match writeError env name, d with
            | Some message, _ => failed message
            | None, None => failed "ENOENT: no such file or directory, open"
            | None, Some files =>
                (Normal (categorizedApps, releaseFiles ++ [name],
                         categoriesWithReleases ++ [category]),
                 Some (<[name := text]> files),
                 [ConsoleLog ("📄 Generated " +:+ name +:+ " with "
                              +:+ showNat (length sorted) +:+ " apps")])
            end
        end
    end.
Proof.
  unfold categoryStep. rewrite bind_eq. unfold raise at 1.
  destruct (arraySort appsByName apps) as [sorted|e]; [|done].
  rewrite bind_eq. unfold raise at 1.
  destruct (cmapM cleanApp sorted) as [filteredApps|e]; [|done].
  rewrite bind_eq. unfold writeFileSync at 1.
  destruct (writeError env (releaseFileNameOf category)) as [message|];
    [done|]. by destruct d as [files|].
Qed.

(** The step of a category writes at most the manifest of that category. *)
Lemma categoryStep_writes `{Host} env st category apps d :
  dirOf (categoryStep env st (category, apps) d) = d
  ∨ ∃ files text,
      d = Some files
      ∧ dirOf (categoryStep env st (category, apps) d)
        = Some (<[releaseFileNameOf category := text]> files).
Proof.
  destruct st as [[categorizedApps releaseFiles] categoriesWithReleases].
  rewrite categoryStep_run.
  destruct (arraySort appsByName apps) as [sorted|e]; [|by left].
  destruct (cmapM cleanApp sorted) as [filteredApps|e]; [|by left].
  cbv zeta. destruct (writeError env (releaseFileNameOf category)) as [message|];
    [by left|].
  destruct d as [files|]; [|by left].
  right. by eexists _, _.
Qed.

(** C9. The manifest of a category is written to [category-] + the
    sanitized name + [.json]; the sanitized name has, place for place, the
    lower-cased character of the name where that is in [[a-z0-9]] and [-]
    elsewhere; the step of a category writes to no other file; and
    [Dev Tools!] gives [category-dev-tools-.json]. *)
Theorem C9_category_file_name `{Host} env category :
  releaseFileNameOf category = "category-" +:+ categorySlug category +:+ ".json"
  ∧ String.length (categorySlug category) = String.length category
  ∧ (∀ i, String.get i (categorySlug category)
          = sanitizedChar <$> String.get i category)
  ∧ (∀ st apps d,
       dirOf (categoryStep env st (category, apps) d) = d
       ∨ ∃ files text,
           d = Some files
           ∧ dirOf (categoryStep env st (category, apps) d)
             = Some (<[releaseFileNameOf category := text]> files))
  ∧ releaseFileNameOf "Dev Tools!" = "category-dev-tools-.json".
Proof.
  split_and!; [done| | | |done].
  - rewrite categorySlug_chars. apply string_map_length.
  - intros i. rewrite categorySlug_chars. apply string_map_get.
  - intros st apps d. apply categoryStep_writes.
Qed.

(** ** The slug of the Releases Index (C5) *)

Lemma collapseSlashes_list s :
  collapseSlashes s
  = String.string_of_list_ascii (collapseList (String.list_ascii_of_string s)).
Proof.
  induction s as [|c s IH]; [done|].
  destruct s as [|c' s]; [done|].
  change (collapseSlashes (String c (String c' s)))
    with (if isSlash c && isSlash c' then collapseSlashes (String c' s)
          else String c (collapseSlashes (String c' s))).
  change (collapseList (String.list_ascii_of_string (String c (String c' s))))
    with (if isSlash c && isSlash c'
          then collapseList (String.list_ascii_of_string (String c' s))
          else c :: collapseList (String.list_ascii_of_string (String c' s))).
  rewrite IH. by destruct (isSlash c && isSlash c').
Qed.

Lemma maximalRuns_cons c s :
  ∃ run runs, maximalRuns (c :: s) = (c :: run) :: runs.
Proof.
  simpl. destruct (maximalRuns s) as [|[|c' run] runs]; [by eexists _, _..|].
  case_bool_decide; by eexists _, _.
Qed.

Lemma isSlash_eq c : isSlash c = true → c = "/"%char.
Proof. unfold isSlash, ascii_eqb. by intros ?%bool_decide_eq_true. Qed.

Lemma collapseList_runs s :
  collapseList s = concat (collapseRun <$> maximalRuns s).
Proof.
  induction s as [|c s IH]; [done|].
  destruct s as [|c' s].
  { simpl. destruct (isSlash c) eqn:Hc; [|done]. by rewrite (isSlash_eq c Hc). }
  change (collapseList (c :: c' :: s))
    with (if isSlash c && isSlash c' then collapseList (c' :: s)
          else c :: collapseList (c' :: s)).
  rewrite IH. destruct (maximalRuns_cons c' s) as (run & runs & Hruns).
  change (maximalRuns (c :: c' :: s))
    with (match maximalRuns (c' :: s) with
          | (c' :: run) :: runs =>
              if bool_decide (isSlash c = isSlash c')
              then (c :: c' :: run) :: runs
              else [c] :: (c' :: run) :: runs
          | _ => [[c]]
          end).
  rewrite Hruns. simpl.
  destruct (isSlash c) eqn:Hc, (isSlash c') eqn:Hc'; simpl;
    rewrite ?Hc, ?Hc'; simpl; try done.
  by rewrite (isSlash_eq c Hc).
Qed.

(** The replacement the script makes collapses every maximal run of
    slashes to one slash. *)
Lemma collapseSlashes_runs s : collapseSlashes s = collapseRuns s.
Proof. unfold collapseRuns. by rewrite collapseSlashes_list, collapseList_runs. Qed.

(** C5. The entry the Releases Index gets for a descriptor has for slug the
    owner, [/], the repository, the path and the name put end to end, as
    strings, with every maximal run of slashes collapsed to one; for [o2],
    [r2], [/b/] and [Bar] this is [o2/r2/b/Bar]. *)
Theorem C5_release_slug (app : object) (entry : releaseEntry) :
  releaseEntryOf app = Normal entry →
  ∃ owner repo path name,
    ToStringOpt (getOwn "owner" app) = Normal owner
    ∧ ToStringOpt (getOwn "repo" app) = Normal repo
    ∧ ToStringOpt (getOwn "path" app) = Normal path
    ∧ ToStringOpt (getOwn "name" app) = Normal name
    ∧ re_slug entry = collapseRuns (owner +:+ "/" +:+ repo +:+ path +:+ name)
    ∧ re_name entry = getOwn "name" app
    ∧ re_version entry = getOwn "version" app
    ∧ collapseRuns ("o2" +:+ "/" +:+ "r2" +:+ "/b/" +:+ "Bar") = "o2/r2/b/Bar".
Proof.
  unfold releaseEntryOf. intros Hentry.
  destruct (ToStringOpt (getOwn "owner" app)) as [owner|]; [|done].
  destruct (ToStringOpt (getOwn "repo" app)) as [repo|]; [|done].
  destruct (ToStringOpt (getOwn "path" app)) as [path|]; [|done].
  destruct (ToStringOpt (getOwn "name" app)) as [name|]; [|done].
  simpl in Hentry. injection Hentry as <-. exists owner, repo, path, name.
  split_and!; try done. simpl. apply collapseSlashes_runs.
Qed.

(** ** The entries of a category manifest (C6) *)

(** The fields of the entry of a category manifest. *)
Lemma cleanApp_fields (app cleaned : object) :
  cleanApp app = Normal cleaned →
  ∃ owner repo name,
    ToStringOpt (getOwn "owner" app) = Normal owner
    ∧ ToStringOpt (getOwn "repo" app) = Normal repo
    ∧ ToStringOpt (getOwn "name" app) = Normal name
    ∧ ∀ field,
        getOwn field cleaned
        = if decide (field = "slug")
          then Some (JStr (owner +:+ "/" +:+ repo +:+ "/" +:+ name))
          else if decide (field ∈ strippedFields) then None
               else getOwn field app.
Proof.
  unfold cleanApp. intros Hclean.
  destruct (ToStringOpt (getOwn "owner" app)) as [owner|]; [|done].
  destruct (ToStringOpt (getOwn "repo" app)) as [repo|]; [|done].
  destruct (ToStringOpt (getOwn "name" app)) as [name|]; [|done].
  simpl in Hclean. injection Hclean as <-. exists owner, repo, name.
  split_and!; try done. intros field.
  rewrite getOwn_setOwn, getOwn_withoutKeys. by repeat case_decide.
Qed.


(** C6, as the code has it. The entry a category manifest gets for a
    descriptor has the fields of the descriptor other than [commit],
    [owner], [repo], [path], [filePath] (the directory attached when the
    descriptor was loaded), [category] and [files], and a [slug] that is the
    owner, [/], the repository, [/] and the name; for [acme], [widgets] and
    [gizmo] the slug is [acme/widgets/gizmo]. *)
Theorem C6_clean_app (app cleaned : object) :
  cleanApp app = Normal cleaned →
  ∃ owner repo name,
    ToStringOpt (getOwn "owner" app) = Normal owner
    ∧ ToStringOpt (getOwn "repo" app) = Normal repo
    ∧ ToStringOpt (getOwn "name" app) = Normal name
    ∧ (∀ field,
         getOwn field cleaned
         = if decide (field = "slug")
           then Some (JStr (owner +:+ "/" +:+ repo +:+ "/" +:+ name))
           else if decide (field ∈ strippedFields) then None
                else getOwn field app)
    ∧ "acme" +:+ "/" +:+ "widgets" +:+ "/" +:+ "gizmo" = "acme/widgets/gizmo".
Proof.
  intros (owner & repo & name & Howner & Hrepo & Hname & Hfields)%cleanApp_fields.
  by exists owner, repo, name.
Qed.

(** ** Descriptors that do not validate (C3) *)

Section Effects.
Context {A B : Type}.

Lemma effectOf_bind (m : M A) (k : A → M B) d a d1 out1 :
  m d = (Normal a, d1, out1) → effectOf ((m ≫= k) d) = effectOf (k a d1).
Proof. intros Hm. by rewrite (bind_normal _ _ _ _ _ _ Hm). Qed.

(** The effect of a sequence depends on the effect of what follows only. *)
Lemma effectOf_bind_ext (m : M A) (k k' : A → M B) d :
  (∀ a d1, effectOf (k a d1) = effectOf (k' a d1)) →
  effectOf ((m ≫= k) d) = effectOf ((m ≫= k') d).
Proof.
  intros Hk. rewrite !bind_eq. destruct (m d) as [[[a|e] d1] out1]; [|done].
  specialize (Hk a d1). unfold effectOf in *.
  destruct (k a d1) as [[r2 d2] out2], (k' a d1) as [[r2' d2'] out2'].
  simpl in *. by simplify_eq.
Qed.

End Effects.

Lemma effectOf_bind_console {B} (e e' : event) (k k' : unit → M B) d :
  effectOf (k () d) = effectOf (k' () d) →
  effectOf ((console e ≫= k) d) = effectOf ((console e' ≫= k') d).
Proof.
  intros Hk. by rewrite (effectOf_bind (console e) k d () d [e]),
    (effectOf_bind (console e') k' d () d [e']).
Qed.

Lemma foldM_app {A S} (body : S → A → M S) l1 l2 s d :
  foldM body (l1 ++ l2) s d = (foldM body l1 s ≫= foldM body l2) d.
Proof.
  revert s d. induction l1 as [|x l1 IH]; intros s d; simpl.
  - rewrite bind_eq; simpl. by destruct (foldM body l2 s d) as [[r2 d2] out2].
  - rewrite !bind_eq. destruct (body s x d) as [[[s'|e] d1] out1]; [|done].
    rewrite IH, !bind_eq.
    destruct (foldM body l1 s' d1) as [[[s''|e] d2] out2]; [|done].
    destruct (foldM body l2 s'' d2) as [[r3 d3] out3]. by rewrite app_assoc.
Qed.

(** One turn of the grouping loop, run. *)
Lemma groupStep_run `{Host} env categorizedApps processedCount skippedCount filePath d :
  groupStep env (categorizedApps, processedCount, skippedCount) filePath d
  = match (loadMetadata env filePath).1 with
    | None =>
        (Normal (categorizedApps, processedCount, S skippedCount), d,
         (loadMetadata env filePath).2)
    | Some metadata =>
        match
          categorizedApps' ← addToCategory categorizedApps metadata;
          name ← ToStringOpt (getOwn "name" metadata);
          category ← ToStringOpt (getOwn "category" metadata);
          Normal (categorizedApps', name, category)
        with
        | Throw e => (Throw e, d, (loadMetadata env filePath).2)
        | Normal (categorizedApps', name, category) =>
            (Normal (categorizedApps', S processedCount, skippedCount), d,
             (loadMetadata env filePath).2
             ++ [ConsoleLog ("✅ Added " +:+ name +:+ " to category '"
                             +:+ category +:+ "'")])
        end
    end.
Proof.
  unfold groupStep.
  destruct (loadMetadata env filePath) as [[metadata|] out]; simpl.
  - rewrite bind_eq; simpl.
    destruct (addToCategory categorizedApps metadata) as [categorizedApps'|e];
      simpl; [|by rewrite app_nil_r].
    destruct (ToStringOpt (getOwn "name" metadata)) as [name|e]; simpl;
      [|by rewrite app_nil_r].
    destruct (ToStringOpt (getOwn "category" metadata)) as [category|e];
      simpl; [|by rewrite app_nil_r]. done.
  - rewrite bind_eq; simpl. by rewrite app_nil_r.
Qed.

Lemma groupStep_skippedOneMore `{Host} env metadataFiles categorizedApps processedCount
    skippedCount d :
  foldM (groupStep env) metadataFiles (categorizedApps, processedCount, S skippedCount) d
  = skippedOneMore
      (foldM (groupStep env) metadataFiles
         (categorizedApps, processedCount, skippedCount) d).
Proof.
  revert categorizedApps processedCount skippedCount d.
  induction metadataFiles as [|filePath rest IH];
    intros categorizedApps processedCount skippedCount d; cbn [foldM]; [done|].
  rewrite !bind_eq, !groupStep_run.
  destruct (loadMetadata env filePath).1 as [metadata|].
  - destruct (_ ← addToCategory categorizedApps metadata; _)
      as [[[categorizedApps' name] category]|e]; [|done].
    rewrite IH. unfold skippedOneMore.
    by destruct (foldM _ rest _ d) as [[[[[??]?]|?] ?] ?].
  - rewrite IH. unfold skippedOneMore.
    by destruct (foldM _ rest _ d) as [[[[[??]?]|?] ?] ?].
Qed.

Lemma effectOf_publish `{Host} env categorizedApps processedCount skippedCount
    processedCount' skippedCount' d :
  effectOf (publish env categorizedApps processedCount skippedCount d)
  = effectOf (publish env categorizedApps processedCount' skippedCount' d).
Proof.
  unfold publish. apply effectOf_bind_console.
  apply effectOf_bind_ext. intros _ d1.
  apply effectOf_bind_ext. intros [[sorted releaseFiles] categoriesWithReleases] d2.
  do 3 (apply effectOf_bind_ext; intros _ ?). done.
Qed.

Lemma missingOrEmpty_spec metadata field :
  missingOrEmpty metadata field ↔ absentOrEmpty metadata field.
Proof.
  unfold missingOrEmpty, absentOrEmpty, hasOwn.
  destruct (getOwn field metadata) as [[| | |s| |]|], (inherited field); simpl;
    try case_bool_decide; subst; simpl;
    (split; [intros Hyes; try done; auto | intros [?|[?|?]]; by simplify_eq]).
Qed.

(** Leaving out a file that does not load changes neither how the run ends
    nor what it leaves in the directory. *)
Lemma effectOf_generate_skip `{Host} env filePath l1 l2 d :
  (loadMetadata env filePath).1 = None →
  effectOf (generate env (l1 ++ filePath :: l2) d)
  = effectOf (generate env (l1 ++ l2) d).
Proof.
  intros Hload. unfold generate. rewrite !bind_eq, !foldM_app, !bind_eq.
  destruct (foldM (groupStep env) l1 ([], 0%nat, 0%nat) d)
    as [[[[[categorizedApps processedCount] skippedCount]|e] d1] out1]; [|done].
  cbn [foldM]. rewrite bind_eq, groupStep_run, Hload, groupStep_skippedOneMore.
  unfold skippedOneMore.
  destruct (foldM (groupStep env) l2 _ d1)
    as [[[[[categorizedApps' processedCount'] skippedCount']|e] d2] out2];
    simpl; [|done].
  pose proof (effectOf_publish env categorizedApps' processedCount'
                (S skippedCount') processedCount' skippedCount' d2) as Heq.
  unfold effectOf in *.
  destruct (publish env categorizedApps' processedCount' (S skippedCount') d2)
    as [[r3 d3] out3],
    (publish env categorizedApps' processedCount' skippedCount' d2)
    as [[r3' d3'] out3'].
  simpl in *. by simplify_eq.
Qed.

(** C3. A descriptor in which some required field is absent, [null] or the
    empty string is not loaded; exactly one warning is printed for it, which
    names the first such field in the order of the required fields; its
    turn of the loop changes neither the groups nor the directory; and the
    run ends as, and leaves the directory as, the run without that file. *)
Theorem C3_invalid_descriptor `{Host} env filePath metadata :
  readJson env filePath = inr (JObj metadata) →
  (∃ field, field ∈ requiredFields ∧ absentOrEmpty metadata field) →
  ∃ before field after,
    requiredFields = before ++ field :: after
    ∧ absentOrEmpty metadata field
    ∧ (∀ earlier, earlier ∈ before → ¬ absentOrEmpty metadata earlier)
    ∧ loadMetadata env filePath
      = (None, [ConsoleWarn ("⚠️ Skipping " +:+ filePath
                             +:+ ": missing or empty field '" +:+ field +:+ "'")])
    ∧ (∀ categorizedApps processedCount skippedCount d,
         groupStep env (categorizedApps, processedCount, skippedCount) filePath d
         = (Normal (categorizedApps, processedCount, S skippedCount), d,
            [ConsoleWarn ("⚠️ Skipping " +:+ filePath
                          +:+ ": missing or empty field '" +:+ field +:+ "'")]))
    ∧ (∀ l1 l2 d,
         effectOf (generate env (l1 ++ filePath :: l2) d)
         = effectOf (generate env (l1 ++ l2) d)).
Proof.
  intros Hread (bad & Hbad & Habsent).
  destruct (list_find_elem_of (missingOrEmpty metadata) requiredFields bad)
    as [[i field] Hfind]; [done | by apply missingOrEmpty_spec |].
  pose proof Hfind as Hspec. apply list_find_Some in Hspec as (Hi & Hfield & Hfirst).
  assert (loadMetadata env filePath
          = (None, [skipping filePath (missingField field)])) as Hload.
  { unfold loadMetadata. by rewrite Hread, Hfind. }
  exists (take i requiredFields), field, (drop (S i) requiredFields).
  split_and!.
  - by rewrite take_drop_middle.
  - by apply missingOrEmpty_spec.
  - intros earlier (j & Hj)%list_elem_of_lookup_1 Hearlier.
    apply lookup_take_Some in Hj as [Hj Hji].
    by apply (Hfirst j earlier), missingOrEmpty_spec.
  - done.
  - intros categorizedApps processedCount skippedCount d.
    by rewrite groupStep_run, Hload.
  - intros l1 l2 d. apply effectOf_generate_skip. by rewrite Hload.
Qed.

(** ** The allow-list of categories (C7) *)

(** An array of names is printed as the names, a comma and a space between
    them. *)
Lemma join_names separator names :
  join separator (JArr (JStr <$> names)) = Normal (joinWith separator names).
Proof.
  unfold join.
  assert (cmapM (λ x, match x with JNull => Normal "" | _ => ToString x end)
                (JStr <$> names) = Normal names) as ->; [|done].
  induction names as [|name names IH]; [done|]. csimpl. by rewrite IH.
Qed.

(** C7. Whatever the allow-list holds that can be printed, as an array of
    names can, or when it does not load, the descriptors are loaded and
    grouped alike, turn by turn of the loop, and the run ends alike and
    leaves the same directory; when the list does not load, it is taken to
    be empty and one warning is printed. *)
Theorem C7_allow_list_is_advisory `{Host} env (outcome : string + json) d :
  printable env →
  printable (withCategoriesJson env outcome) →
  (∀ filePath,
     loadMetadata (withCategoriesJson env outcome) filePath
     = loadMetadata env filePath)
  ∧ (∀ st filePath d',
       groupStep (withCategoriesJson env outcome) st filePath d'
       = groupStep env st filePath d')
  ∧ effectOf (main (withCategoriesJson env outcome) d) = effectOf (main env d)
  ∧ (∀ message,
       loadValidCategories (withCategoriesJson env (inl message))
       = (JArr [],
          [ConsoleWarn ("⚠️ Could not load categories.json: " +:+ message)]))
  ∧ (∀ names, printable (withCategoriesJson env (inr (JArr (JStr <$> names)))))
  ∧ (∀ message, printable (withCategoriesJson env (inl message))).
Proof.
  intros [listed Hlisted] [listed' Hlisted']. split_and!; try done.
  - unfold main.
    destruct (loadValidCategories (withCategoriesJson env outcome))
      as [validCategories' out'],
      (loadValidCategories env) as [validCategories out].
    simpl in Hlisted, Hlisted'. rewrite Hlisted, Hlisted'.
    apply effectOf_bind_ext. intros _ d1.
    rewrite (effectOf_bind (consoleAll out') _ d1 () d1 out') by done.
    rewrite (effectOf_bind (consoleAll out) _ d1 () d1 out) by done.
    rewrite (effectOf_bind (raise (Normal listed')) _ d1 listed' d1 []) by done.
    rewrite (effectOf_bind (raise (Normal listed)) _ d1 listed d1 []) by done.
    by apply effectOf_bind_console.
  - intros names. exists (joinWith ", " names). apply join_names.
  - intros message. by exists "".
Qed.

(** ** The order of the entries (C2) *)

Section SortCorrect.
Context {A : Type} (comparefn : A → A → completion Z) (le : A → A → Prop).
Hypothesis le_of_nonpositive : ∀ x y c,
  comparefn x y = Normal c → c ≤ 0 → le x y.
Hypothesis le_of_positive : ∀ x y c,
  comparefn x y = Normal c → 0 < c → le y x.

Lemma insertSorted_perm x l l' :
  insertSorted comparefn x l = Normal l' → l' ≡ₚ x :: l.
Proof.
  revert l'. induction l as [|y l IH]; intros l'; simpl.
  - by intros [= <-].
  - destruct (comparefn x y) as [c|]; simpl; [|done].
    destruct (0 <? c).
    + destruct (insertSorted comparefn x l) as [ys|]; simpl; [|done].
      intros [= <-]. rewrite (IH ys eq_refl). apply Permutation_swap.
    + by intros [= <-].
Qed.

Lemma insertSorted_HdRel x y l l' :
  insertSorted comparefn x l = Normal l' → le y x → HdRel le y l → HdRel le y l'.
Proof.
  destruct l as [|z l]; simpl.
  - intros [= <-] Hyx _. by constructor.
  - destruct (comparefn x z) as [c|]; simpl; [|done].
    destruct (0 <? c).
    + destruct (insertSorted comparefn x l) as [ys|]; simpl; [|done].
      intros [= <-] _ Hyz. constructor. by inversion Hyz.
    + intros [= <-] Hyx _. by constructor.
Qed.

Lemma insertSorted_sorted x l l' :
  insertSorted comparefn x l = Normal l' → Sorted le l → Sorted le l'.
Proof.
  revert l'. induction l as [|y l IH]; intros l'; simpl.
  - intros [= <-] _. by repeat constructor.
  - destruct (comparefn x y) as [c|] eqn:Hc; simpl; [|done].
    destruct (0 <? c) eqn:Hpos.
    + destruct (insertSorted comparefn x l) as [ys|] eqn:Hys; simpl; [|done].
      intros [= <-] Hsorted. inversion Hsorted as [|?? Hl Hhd]; subst.
      constructor; [by apply IH|].
      eapply insertSorted_HdRel; [done| |done].
      eapply le_of_positive; [done|]. by apply Z.ltb_lt.
    + intros [= <-] Hsorted. constructor; [done|]. constructor.
      eapply le_of_nonpositive; [done|]. by apply Z.ltb_ge.
Qed.

(** The sort returns its argument rearranged, each element not after the
    next. *)
Lemma arraySort_sorted l l' :
  arraySort comparefn l = Normal l' → Sorted le l' ∧ l' ≡ₚ l.
Proof.
  revert l'. induction l as [|x l IH]; intros l'; simpl.
  - intros [= <-]. by split; [constructor|].
  - destruct (arraySort comparefn l) as [sorted|]; simpl; [|done].
    destruct (IH sorted eq_refl) as [Hsorted Hperm]. intros Hins. split.
    + by eapply insertSorted_sorted.
    + rewrite (insertSorted_perm _ _ _ Hins). by constructor.
Qed.
End SortCorrect.





#[local] Instance sortedOrOld_preorder `{Host} : PreOrder sortedOrOld.
Proof.
  split; [by left|].
  intros d1 d2 d3 H12 H23 file text Hfile.
  destruct (H23 file text Hfile) as [Hold|Hnew]; [by apply H12 | by right].
Qed.

Lemma releaseFileNameOf_not_releases category :
  releaseFileNameOf category ≠ "releases.json".
Proof. done. Qed.




(** ** Running the script twice (C8) *)

Section Footprints.
Implicit Types (files : gmap string string) (writes : list (string * string)).

Lemma writeAll_app writes1 writes2 files :
  writeAll (writes1 ++ writes2) files = writeAll writes2 (writeAll writes1 files).
Proof. apply foldl_app. Qed.

Lemma writeAll_union writes files :
  writeAll writes files = writeAll writes ∅ ∪ files.
Proof.
  revert files. induction writes as [|[name text] writes IH]; intros files; simpl.
  - by rewrite (left_id_L ∅ (∪)).
  - rewrite IH, (IH (<[name:=text]> ∅)).
    by rewrite insert_empty, (insert_union_singleton_l files), (assoc_L (∪)).
Qed.

Lemma writeAll_names writes file text :
  writeAll writes ∅ !! file = Some text → file ∈ writes.*1.
Proof.
  induction writes as [|[name text'] writes IH] using rev_ind; simpl.
  - by rewrite lookup_empty.
  - rewrite writeAll_app, fmap_app; simpl.
    destruct (decide (name = file)) as [->|Hne].
    + intros _. apply elem_of_app. right. by left.
    + rewrite lookup_insert_ne by done. intros ?%IH. apply elem_of_app. by left.
Qed.




End Footprints.

Section EffectRuns.
Context {A B : Type}.

Lemma effectOf_normal (m : M A) (k : A → M B) d a d1 :
  effectOf (m d) = (Normal a, d1) → effectOf ((m ≫= k) d) = effectOf (k a d1).
Proof.
  unfold effectOf. rewrite bind_eq. destruct (m d) as [[r1 d1'] out1]; simpl.
  intros [= -> ->]. by destruct (k a d1) as [[r2 d2] out2].
Qed.

Lemma effectOf_throw (m : M A) (k : A → M B) d e d1 :
  effectOf (m d) = (Throw e, d1) → effectOf ((m ≫= k) d) = (Throw e, d1).
Proof.
  unfold effectOf. rewrite bind_eq. destruct (m d) as [[r1 d1'] out1]; simpl.
  by intros [= -> ->].
Qed.
End EffectRuns.

Section Footprint.
Context `{Host} (env : Env).

(** The grouping loop does not touch the directory nor look at it. *)
Lemma grouping_untouched metadataFiles st :
  ∃ r, ∀ d, effectOf (foldM (groupStep env) metadataFiles st d) = (r, d).
Proof.
  revert st. induction metadataFiles as [|filePath rest IH]; intros st; cbn [foldM].
  - by exists (Normal st).
  - destruct st as [[categorizedApps processedCount] skippedCount].
    destruct (loadMetadata env filePath).1 as [metadata|] eqn:Hload.
    + destruct (categorizedApps' ← addToCategory categorizedApps metadata;
                name ← ToStringOpt (getOwn "name" metadata);
                category ← ToStringOpt (getOwn "category" metadata);
                Normal (categorizedApps', name, category))
        as [[[categorizedApps' name] category]|e] eqn:Hadd.
      * destruct (IH (categorizedApps', S processedCount, skippedCount)) as [r Hr].
        exists r. intros d. erewrite effectOf_normal; [apply Hr|].
        by rewrite groupStep_run, Hload, Hadd.
      * exists (Throw e). intros d. apply effectOf_throw.
        by rewrite groupStep_run, Hload, Hadd.
    + destruct (IH (categorizedApps, processedCount, S skippedCount)) as [r Hr].
      exists r. intros d. erewrite effectOf_normal; [apply Hr|].
      by rewrite groupStep_run, Hload.
Qed.


Lemma writeCategoriesIndex_writes categorizedApps categoriesWithReleases :
  ∃ r writes,
    (∀ files,
       effectOf (writeCategoriesIndex env categorizedApps categoriesWithReleases
                   (Some files))
       = (r, Some (writeAll writes files)))
    ∧ (∀ file, file ∈ writes.*1 → file = "categories.json").
Proof.
  unfold writeCategoriesIndex. case_bool_decide.
  2:{ exists (Normal ()), []. split; [done|]. by intros ? ?%elem_of_nil. }
  destruct (arraySort countsByName _) as [counts|e] eqn:Hcounts.
  2:{ exists (Throw e), []. split; [|by intros ? ?%elem_of_nil].
      intros files. by apply effectOf_throw. }
  destruct (writeError env "categories.json") as [message|] eqn:Hwrite.
  - exists (Normal ()), []. split; [|by intros ? ?%elem_of_nil].
    intros files. erewrite effectOf_normal; [|done].
    erewrite effectOf_normal; [|unfold writeFileSync; by rewrite Hwrite]. done.
  - eexists (Normal ()), [(_, _)]. split.
    + intros files. erewrite effectOf_normal; [|done].
      erewrite effectOf_normal; [|unfold writeFileSync; by rewrite Hwrite]. done.
    + by intros file ->%list_elem_of_singleton.
Qed.

End Footprint.

Section Removal.
Context `{Host} (env : Env) (releaseFiles : list string).
Implicit Types files : gmap string string.

(** One turn of the removal loop on a category file. *)
Lemma removeStep_run existingFile files :
  isCategoryFile existingFile →
  effectOf (removeStep env releaseFiles () existingFile (Some files))
  = (Normal (),
     Some (if decide (removable env releaseFiles existingFile)
           then delete existingFile files else files)).
Proof.
  intros Hcat. unfold removeStep, removable. case_bool_decide as Hnot.
  2:{ rewrite decide_False by intuition congruence. done. }
  destruct (unlinkError env existingFile) as [message|] eqn:Hunlink.
  - rewrite decide_False by intuition congruence.
    erewrite effectOf_normal; [|unfold unlinkSync; by rewrite Hunlink]. done.
  - rewrite decide_True by done.
    destruct (files !! existingFile) as [text|] eqn:Hfile.
    + erewrite effectOf_normal;
        [|unfold unlinkSync; by rewrite Hunlink, Hfile]. done.
    + erewrite effectOf_normal;
        [|unfold unlinkSync; by rewrite Hunlink, Hfile].
      by rewrite delete_id.
Qed.

Lemma removeLoop_run existing files :
  Forall (λ file, isCategoryFile file) existing →
  ∃ files',
    effectOf (foldM (removeStep env releaseFiles) existing () (Some files))
    = (Normal (), Some files')
    ∧ ∀ file,
        files' !! file
        = if decide (file ∈ existing ∧ removable env releaseFiles file)
          then None else files !! file.
Proof.
  intros Hcat. revert files.
  induction Hcat as [|existingFile existing Hfile _ IH]; intros files; cbn [foldM].
  - exists files. split; [done|]. intros file.
    rewrite decide_False; [done|]. by intros [?%elem_of_nil _].
  - destruct (IH (if decide (removable env releaseFiles existingFile)
                  then delete existingFile files else files))
      as (files' & Hrun & Hfiles').
    exists files'. split.
    + erewrite effectOf_normal; [apply Hrun|]. by apply removeStep_run.
    + intros file. rewrite Hfiles'.
      destruct (decide (file = existingFile)) as [->|Hne].
      * destruct (decide (removable env releaseFiles existingFile)) as [Hrem|Hrem].
        -- rewrite lookup_delete_eq.
           rewrite (decide_True (P := existingFile ∈ existingFile :: existing ∧ _))
             by (split; [by left | done]).
           by case_decide.
        -- rewrite !decide_False by intuition congruence. done.
      * assert ((if decide (removable env releaseFiles existingFile)
                 then delete existingFile files else files) !! file
                = files !! file) as ->.
        { case_decide; [by rewrite lookup_delete_ne | done]. }
        apply decide_ext. rewrite elem_of_cons. intuition congruence.
Qed.

(** The removal leaves the files other than the obsolete ones. *)
Lemma removeObsolete_run files :
  effectOf (removeObsolete env releaseFiles (Some files))
  = (Normal (), Some (withoutObsolete env releaseFiles files)).
Proof.
  unfold removeObsolete.
  destruct (removeLoop_run (filter isCategoryFile (map_to_list files).*1) files)
    as (files' & Hrun & Hfiles').
  { apply Forall_forall. by intros file [? _]%list_elem_of_filter. }
  erewrite effectOf_normal; [|done]. rewrite Hrun. do 2 f_equal.
  apply map_eq. intros file. rewrite Hfiles'. unfold withoutObsolete.
  destruct (files !! file) as [text|] eqn:Hfile.
  - case_decide as Hrem.
    + symmetry. apply map_lookup_filter_None. right. intros text' _.
      simpl. intuition congruence.
    + symmetry. apply map_lookup_filter_Some. split; [done|]. simpl.
      intros Hremovable. apply Hrem. split; [|done].
      apply list_elem_of_filter. split; [by destruct Hremovable|].
      apply list_elem_of_fmap. exists (file, text). split; [done|].
      by apply elem_of_map_to_list.
  - rewrite (proj2 (map_lookup_filter_None _ _ _)) by (by left).
    by case_decide.
Qed.
End Removal.

Section Twice.
Context `{Host} (env : Env).

Lemma effectOf_ensureReleasesDir {B} (k : unit → M B) d :
  effectOf ((ensureReleasesDir ≫= k) d) = effectOf (k () (Some (default ∅ d))).
Proof.
  destruct (ensureReleasesDir_run d) as [out Hrun].
  by rewrite (effectOf_bind _ _ _ _ _ _ Hrun).
Qed.



End Twice.


(** ** The groups (C4) *)

Section Keys.
Context {V : Type}.
Implicit Types (o : list (string * V)) (k : string) (v : V).

Lemma getOwn_None k o : getOwn k o = None ↔ k ∉ o.*1.
Proof.
  induction o as [|[k1 v1] o IH]; simpl.
  - split; [intros _; apply not_elem_of_nil | done].
  - rewrite not_elem_of_cons. case_bool_decide; [intuition congruence|].
    rewrite IH. intuition congruence.
Qed.

Lemma getOwn_elem_of k v o : getOwn k o = Some v → (k, v) ∈ o.
Proof.
  induction o as [|[k1 v1] o IH]; simpl; [done|].
  case_bool_decide; [intros [= <-]; subst; by left | intros ?; right; by apply IH].
Qed.

Lemma elem_of_getOwn k v o : NoDup o.*1 → (k, v) ∈ o → getOwn k o = Some v.
Proof.
  induction o as [|[k1 v1] o IH]; simpl; [by intros _ ?%elem_of_nil|].
  intros [Hk1 Hnodup]%NoDup_cons [[= -> ->]|Hin]%elem_of_cons.
  - by rewrite bool_decide_true.
  - rewrite bool_decide_false; [by apply IH|]. intros ->. apply Hk1.
    apply list_elem_of_fmap. by exists (k, v).
Qed.

Lemma replaceOwn_keys k v o : (replaceOwn k v o).*1 = o.*1.
Proof.
  induction o as [|[k1 v1] o IH]; [done|]. cbn [replaceOwn].
  case_bool_decide; csimpl; [by subst | by rewrite IH].
Qed.

Lemma insertIndex_perm i k v o : insertIndex i k v o ≡ₚ (k, v) :: o.
Proof.
  induction o as [|[k1 v1] o IH]; simpl; [done|].
  destruct (arrayIndex k1) as [j|]; [|done].
  destruct (j <? i)%N; [|done]. rewrite IH. apply Permutation_swap.
Qed.

Lemma setOwn_new_perm k v o : getOwn k o = None → setOwn k v o ≡ₚ (k, v) :: o.
Proof.
  intros Hnone. unfold setOwn, hasOwn. rewrite Hnone.
  destruct (arrayIndex k) as [i|]; [apply insertIndex_perm|].
  by rewrite Permutation_app_comm.
Qed.

(** Replacing the value of the first entry for a key. *)
Lemma replaceOwn_split k v v' o :
  getOwn k o = Some v →
  ∃ o1 o2, o = o1 ++ (k, v) :: o2 ∧ (k ∉ o1.*1)
           ∧ replaceOwn k v' o = o1 ++ (k, v') :: o2.
Proof.
  induction o as [|[k1 v1] o IH]; simpl; [done|].
  case_bool_decide as Hk1.
  - intros [= <-]. subst k1. exists [], o. split_and!; [done| |done].
    apply not_elem_of_nil.
  - intros (o1 & o2 & -> & Hnotin & Hreplace)%IH.
    exists ((k1, v1) :: o1), o2. simpl. rewrite Hreplace.
    split_and!; [done| |done]. rewrite not_elem_of_cons. intuition congruence.
Qed.
End Keys.

Section Grouping.
Context `{Host} (env : Env).
Implicit Types (categorizedApps : groups) (loaded : list object).

Lemma concat_insertIndex i k (v : list object) categorizedApps :
  concat (insertIndex i k v categorizedApps).*2 ≡ₚ v ++ concat categorizedApps.*2.
Proof.
  induction categorizedApps as [|[k1 v1] o IH]; simpl; [done|].
  destruct (arrayIndex k1) as [j|]; [|done].
  destruct (j <? i)%N; [|done]. csimpl. rewrite IH.
  apply Permutation_app_swap_app.
Qed.

Lemma concat_setOwn_new k (v : list object) categorizedApps :
  getOwn k categorizedApps = None →
  concat (setOwn k v categorizedApps).*2 ≡ₚ v ++ concat categorizedApps.*2.
Proof.
  intros Hnone. unfold setOwn, hasOwn. rewrite Hnone.
  destruct (arrayIndex k) as [i|]; [apply concat_insertIndex|].
  rewrite fmap_app, concat_app; simpl. rewrite app_nil_r.
  apply Permutation_app_comm.
Qed.

Lemma nonEmpty_Some {A} (l l' : list A) : nonEmpty l = Some l' → l = l' ∧ l ≠ [].
Proof. destruct l; [done|]. by intros [= <-]. Qed.

Lemma nonEmpty_None {A} (l : list A) : nonEmpty l = None → l = [].
Proof. by destruct l. Qed.

Lemma nonEmpty_snoc {A} (l : list A) x : nonEmpty (l ++ [x]) = Some (l ++ [x]).
Proof. by destruct l. Qed.

(** A descriptor that is added joins the group of its category, and that
    group only. *)
Lemma addToCategory_grouped categorizedApps loaded metadata categorizedApps' :
  grouped categorizedApps loaded →
  addToCategory categorizedApps metadata = Normal categorizedApps' →
  grouped categorizedApps' (loaded ++ [metadata]).
Proof.
  intros (Hnodup & Hgroups & Hall). unfold addToCategory.
  destruct (ToStringOpt (getOwn "category" metadata)) as [category|] eqn:Hcategory;
    simpl; [|done].
  assert (∀ category',
    filter (hasCategory category') (loaded ++ [metadata])
    = filter (hasCategory category') loaded
      ++ (if decide (category = category') then [metadata] else [])) as Hfilter.
  { intros category'. rewrite filter_app, filter_cons, filter_nil.
    destruct (decide (hasCategory category' metadata)) as [Hyes|Hno];
      unfold hasCategory in Hyes || unfold hasCategory in Hno;
      rewrite Hcategory in Hyes || rewrite Hcategory in Hno;
      case_decide; by simplify_eq. }
  destruct (getOwn category categorizedApps) as [apps|] eqn:Hget.
  - intros [= <-]. split_and!.
    + by rewrite replaceOwn_keys.
    + intros category'. rewrite Hfilter, getOwn_replaceOwn
        by (unfold hasOwn; by rewrite Hget).
      case_decide as Heq; [|by rewrite app_nil_r].
      subst category'. rewrite Hgroups in Hget.
      apply nonEmpty_Some in Hget as [-> _]. by rewrite nonEmpty_snoc.
    + destruct (replaceOwn_split category apps (apps ++ [metadata]) categorizedApps Hget)
        as (o1 & o2 & -> & _ & ->).
      rewrite <-Hall, !fmap_app, !concat_app; csimpl.
      rewrite <-!app_assoc. do 2 f_equiv. apply Permutation_app_comm.
  - destruct (inherited category); [done|]. intros [= <-]. split_and!.
    + rewrite (setOwn_new_perm _ _ _ Hget); csimpl.
      apply NoDup_cons. split; [by apply getOwn_None | done].
    + intros category'. rewrite Hfilter, getOwn_setOwn.
      case_decide as Heq; [|by rewrite app_nil_r].
      subst category'. rewrite Hgroups in Hget.
      by rewrite (nonEmpty_None _ Hget).
    + rewrite (concat_setOwn_new _ _ _ Hget), Hall. apply Permutation_app_comm.
Qed.

(** The grouping loop leaves the descriptors that load grouped. *)
Lemma grouping_grouped metadataFiles categorizedApps processedCount skippedCount loaded
    d categorizedApps' processedCount' skippedCount' d' :
  grouped categorizedApps loaded →
  effectOf (foldM (groupStep env) metadataFiles
              (categorizedApps, processedCount, skippedCount) d)
  = (Normal (categorizedApps', processedCount', skippedCount'), d') →
  grouped categorizedApps' (loaded ++ loadedDescriptors env metadataFiles).
Proof.
  revert categorizedApps processedCount skippedCount loaded.
  induction metadataFiles as [|filePath rest IH];
    intros categorizedApps processedCount skippedCount loaded Hgrouped; cbn [foldM].
  - intros [= <- _ _ _]. by rewrite app_nil_r.
  - assert (loadedDescriptors env (filePath :: rest)
            = match (loadMetadata env filePath).1 with
              | Some metadata => metadata :: loadedDescriptors env rest
              | None => loadedDescriptors env rest
              end) as -> by done.
    intros Hrun.
    destruct (loadMetadata env filePath).1 as [metadata|] eqn:Hload.
    + destruct (categorizedApps1 ← addToCategory categorizedApps metadata;
                name ← ToStringOpt (getOwn "name" metadata);
                category ← ToStringOpt (getOwn "category" metadata);
                Normal (categorizedApps1, name, category))
        as [[[categorizedApps1 name] category]|e] eqn:Hadd.
      * erewrite effectOf_normal in Hrun;
          [|by rewrite groupStep_run, Hload, Hadd].
        apply (IH _ _ _ (loaded ++ [metadata])) in Hrun.
        { by rewrite <-app_assoc in Hrun. }
        eapply addToCategory_grouped; [done|].
        destruct (addToCategory categorizedApps metadata); simpl in Hadd; [|done].
        destruct (ToStringOpt (getOwn "name" metadata)); simpl in Hadd; [|done].
        destruct (ToStringOpt (getOwn "category" metadata)); simpl in Hadd; [|done].
        by simplify_eq.
      * erewrite effectOf_throw in Hrun; [done|].
        by rewrite groupStep_run, Hload, Hadd.
    + erewrite effectOf_normal in Hrun; [|by rewrite groupStep_run, Hload].
      by eapply IH.
Qed.
End Grouping.

Section Completed.
Context `{Host} (env : Env).
Implicit Types (categorizedApps : groups) (files : gmap string string).

Lemma replaceOwn_middle {V} k (v v' : V) (o1 o2 : list (string * V)) :
  k ∉ o1.*1 → replaceOwn k v' (o1 ++ (k, v) :: o2) = o1 ++ (k, v') :: o2.
Proof.
  induction o1 as [|[k1 v1] o1 IH]; csimpl.
  - intros _. by rewrite bool_decide_true.
  - intros [Hne Hnotin]%not_elem_of_cons.
    rewrite bool_decide_false by done. by rewrite IH.
Qed.

Lemma manifestWrites_cons entry categorizedApps :
  manifestWrites env (entry :: categorizedApps)
  = match writeError env (releaseFileNameOf entry.1), cmapM cleanApp entry.2 with
    | None, Normal filteredApps =>
        [(releaseFileNameOf entry.1,
          JSON_stringify (releaseData entry.1 entry.2 filteredApps))]
    | _, _ => []
    end ++ manifestWrites env categorizedApps.
Proof.
  unfold manifestWrites; cbn [omap list_omap].
  destruct (writeError env _); [done|]. by destruct (cmapM cleanApp _).
Qed.

(** The loop over the categories, when it returns: every array is sorted in
    its place, and the files written and recorded are the manifests. *)
Lemma categoryLoop_completed rest done releaseFiles categoriesWithReleases files
    categorizedApps' releaseFiles' categoriesWithReleases' d' :
  NoDup (done ++ rest).*1 →
  effectOf (foldM (categoryStep env) rest
              (done ++ rest, releaseFiles, categoriesWithReleases) (Some files))
  = (Normal (categorizedApps', releaseFiles', categoriesWithReleases'), d') →
  ∃ rest',
    categorizedApps' = done ++ rest'
    ∧ Forall2 sortedGroup rest rest'
    ∧ releaseFiles' = releaseFiles ++ (manifestWrites env rest').*1
    ∧ d' = Some (writeAll (manifestWrites env rest') files).
Proof.
  revert done releaseFiles categoriesWithReleases files.
  induction rest as [|[category apps] rest IH];
    intros done releaseFiles categoriesWithReleases files Hnodup Hrun;
    cbn [foldM] in Hrun.
  - injection Hrun as <- <- <- <-. exists []. rewrite app_nil_r.
    by split_and!; [|constructor|rewrite app_nil_r|].
  - assert (category ∉ done.*1) as Hfresh.
    { rewrite fmap_app in Hnodup. apply NoDup_app in Hnodup as (_ & Hdisjoint & _).
      intros Hin. apply (Hdisjoint _ Hin). by left. }
    destruct (arraySort appsByName apps) as [sorted|e] eqn:Hsorted.
    2:{ erewrite effectOf_throw in Hrun; [done|].
        by rewrite categoryStep_run, Hsorted. }
    destruct (cmapM cleanApp sorted) as [filteredApps|e] eqn:Hfiltered.
    2:{ erewrite effectOf_throw in Hrun; [done|].
        by rewrite categoryStep_run, Hsorted, Hfiltered. }
    assert (NoDup ((done ++ [(category, sorted)]) ++ rest).*1) as Hnodup'.
    { by rewrite <-app_assoc, !fmap_app in *. }
    destruct (writeError env (releaseFileNameOf category)) as [message|] eqn:Hwrite.
    + erewrite effectOf_normal in Hrun;
        [|by rewrite categoryStep_run, Hsorted, Hfiltered; cbv zeta; rewrite Hwrite].
      rewrite replaceOwn_middle in Hrun by done.
      rewrite (cons_middle _ done rest), app_assoc in Hrun.
      apply IH in Hrun as (rest' & -> & Hrest & -> & ->); [|done].
      exists ((category, sorted) :: rest').
      rewrite manifestWrites_cons; simpl. rewrite Hwrite; simpl.
      split_and!; [by rewrite <-app_assoc| |done..].
      constructor; [|done]. split_and!; [done..|by eexists].
    + erewrite effectOf_normal in Hrun;
        [|by rewrite categoryStep_run, Hsorted, Hfiltered; cbv zeta; rewrite Hwrite].
      rewrite replaceOwn_middle in Hrun by done.
      rewrite (cons_middle _ done rest), app_assoc in Hrun.
      apply IH in Hrun as (rest' & -> & Hrest & -> & ->); [|done].
      exists ((category, sorted) :: rest').
      rewrite manifestWrites_cons; simpl. rewrite Hwrite, Hfiltered; simpl.
      split_and!; [by rewrite <-app_assoc| |by rewrite <-app_assoc|done].
      constructor; [|done]. split_and!; [done..|by eexists].
Qed.

(** The write of the Releases Index, when the step returns. *)
Lemma writeReleasesIndex_completed categorizedApps files d' :
  effectOf (writeReleasesIndex env categorizedApps (Some files)) = (Normal (), d') →
  d' = Some (writeAll (releasesWrite env categorizedApps) files)
  ∧ (categorizedApps ≠ [] → indexable categorizedApps).
Proof.
  unfold writeReleasesIndex, releasesWrite, indexable. case_bool_decide as Hkeys.
  2:{ intros [= <-]. split; [done|]. intros Hne. destruct categorizedApps; [done|].
      contradict Hkeys. simpl. lia. }
  intros Hrun.
  destruct (cmapM releaseEntryOf (concat categorizedApps.*2))
    as [allApps|e] eqn:Hall.
  2:{ by erewrite effectOf_throw in Hrun. }
  erewrite effectOf_normal in Hrun; [|done]. cbv beta in Hrun.
  destruct (arraySort entriesByName allApps) as [sorted|e] eqn:Hsorted.
  2:{ by erewrite effectOf_throw in Hrun. }
  erewrite effectOf_normal in Hrun; [|done]. cbv beta in Hrun.
  split; [|by eexists _, _].
  destruct (writeError env "releases.json") as [message|] eqn:Hwrite.
  - erewrite effectOf_normal in Hrun; [|unfold writeFileSync; by rewrite Hwrite].
    injection Hrun as <-. simpl. by rewrite Hsorted, ?Hwrite.
  - erewrite effectOf_normal in Hrun; [|unfold writeFileSync; by rewrite Hwrite].
    injection Hrun as <-. simpl. by rewrite Hsorted, ?Hwrite.
Qed.
End Completed.

(** Runs the first computation of a sequence in [Hrun], which says that the
    sequence returns. *)
Tactic Notation "run_in" hyp(Hrun) "as" simple_intropattern(pat) :=
  lazymatch type of Hrun with
  | effectOf ((?m ≫= _) ?d) = _ =>
      let Hm := fresh "Hm" in
      let e := fresh "e" in
      let a := fresh "a" in
      let d1 := fresh "d" in
      destruct (effectOf (m d)) as [[a|e] d1] eqn:Hm;
      [ rewrite (effectOf_normal _ _ _ _ _ Hm) in Hrun; cbv beta in Hrun;
        revert Hrun Hm; generalize a; intros pat Hrun Hm
      | by rewrite (effectOf_throw _ _ _ _ _ Hm) in Hrun ]
  end.

Section Final.
Context `{Host} (env : Env).
Implicit Types (categorizedApps : groups) (files : gmap string string).

Lemma lookup_writeAll_notin (writes : list (string * string)) files file :
  file ∉ writes.*1 → writeAll writes files !! file = files !! file.
Proof.
  intros Hnotin. rewrite writeAll_union.
  destruct (writeAll writes ∅ !! file) as [text|] eqn:Hfile.
  - by apply writeAll_names in Hfile.
  - by rewrite lookup_union_r.
Qed.


(** What the run leaves when it has dealt with the groups and returned. *)
Lemma publish_completed categorizedApps processedCount skippedCount d d' :
  NoDup categorizedApps.*1 →
  effectOf (publish env categorizedApps processedCount skippedCount d)
  = (Normal (), d') →
  ∃ sorted others,
    Forall2 sortedGroup categorizedApps sorted
    ∧ (sorted ≠ [] → indexable sorted)
    ∧ (∀ file, file ∈ others.*1 → file = "categories.json")
    ∧ d' = Some (withoutObsolete env (manifestWrites env sorted).*1
                   (writeAll (manifestWrites env sorted ++ others
                              ++ releasesWrite env sorted) (default ∅ d))).
Proof.
  intros Hnodup Hrun. unfold publish in Hrun.
  erewrite effectOf_normal in Hrun; [|done].
  rewrite effectOf_ensureReleasesDir in Hrun.
  run_in Hrun as [[sorted releaseFiles] categoriesWithReleases].
  apply (categoryLoop_completed env categorizedApps []) in Hm
    as (sorted' & -> & Hsorted & -> & ->); [|done].
  destruct (writeCategoriesIndex_writes env sorted' categoriesWithReleases)
    as (r2 & others & Hrun2 & Hothers).
  run_in Hrun as []. rewrite Hrun2 in Hm. injection Hm as -> <-.
  run_in Hrun as []. apply writeReleasesIndex_completed in Hm as [-> Hindex].
  erewrite effectOf_normal in Hrun; [|apply removeObsolete_run].
  injection Hrun as <-. exists sorted', others.
  split_and!; [done..|]. by rewrite !writeAll_app.
Qed.

(** What a run that found descriptor files leaves when it returns. *)
Lemma generate_completed metadataFiles d d' :
  effectOf (generate env metadataFiles d) = (Normal (), d') →
  ∃ categorizedApps sorted others,
    grouped categorizedApps (loadedDescriptors env metadataFiles)
    ∧ Forall2 sortedGroup categorizedApps sorted
    ∧ (sorted ≠ [] → indexable sorted)
    ∧ (∀ file, file ∈ others.*1 → file = "categories.json")
    ∧ d' = Some (withoutObsolete env (manifestWrites env sorted).*1
                   (writeAll (manifestWrites env sorted ++ others
                              ++ releasesWrite env sorted) (default ∅ d))).
Proof.
  intros Hrun. unfold generate in Hrun.
  run_in Hrun as [[categorizedApps processedCount] skippedCount].
  destruct (grouping_untouched env metadataFiles ([], 0%nat, 0%nat)) as [r Hgroup].
  pose proof Hm as Hd. rewrite Hgroup in Hd. injection Hd as -> <-.
  apply (grouping_grouped env _ _ _ _ []) in Hm.
  2:{ split_and!; [constructor|done..]. }
  apply publish_completed in Hrun
    as (sorted & others & Hsorted & Hindex & Hothers & ->); [|by destruct Hm].
  by exists categorizedApps, sorted, others.
Qed.

Lemma effectOf_pair {A} (run : completion A * releasesDir * list event) :
  effectOf run = (resultOf run, dirOf run).
Proof. by destruct run as [[r d] out]. Qed.

Lemma main_run d :
  effectOf (main env d)
  = match join ", " (loadValidCategories env).1 with
    | Throw e => (Throw e, d)
    | Normal _ =>
        if bool_decide (length (findMetadataFiles
                                  (path_join [scriptDir env; ".."; "repositories"])
                                  (repositories env)) = 0%nat)
        then (Normal (), d)
        else effectOf (generate env
                         (findMetadataFiles
                            (path_join [scriptDir env; ".."; "repositories"])
                            (repositories env)) d)
    end.
Proof.
  unfold main. destruct (loadValidCategories env) as [validCategories out].
  simpl. do 2 (erewrite effectOf_normal; [|done]).
  destruct (join ", " validCategories) as [listed|e].
  - do 3 (erewrite effectOf_normal; [|done]). by case_bool_decide.
  - by erewrite effectOf_throw.
Qed.

(** A run that returns printed the allow-list. *)
Lemma main_returned d :
  resultOf (main env d) = Normal () →
  effectOf (main env d)
  = if bool_decide (length (findMetadataFiles
                              (path_join [scriptDir env; ".."; "repositories"])
                              (repositories env)) = 0%nat)
    then (Normal (), d)
    else effectOf (generate env
                     (findMetadataFiles
                        (path_join [scriptDir env; ".."; "repositories"])
                        (repositories env)) d).
Proof.
  intros Hresult. pose proof (main_run d) as Hrun.
  destruct (join ", " (loadValidCategories env).1) as [listed|e]; [done|].
  rewrite effectOf_pair, Hresult in Hrun. done.
Qed.
End Final.

Section Claims.
Context `{Host} (env : Env).
Implicit Types (categorizedApps sorted : groups) (files : gmap string string).

Lemma arraySort_perm {A} (comparefn : A → A → completion Z) l l' :
  arraySort comparefn l = Normal l' → l' ≡ₚ l.
Proof.
  intros Hsort.
  by apply (arraySort_sorted comparefn (λ _ _, True)) in Hsort as [_ ?].
Qed.


Lemma sortedGroup_concat categorizedApps sorted :
  Forall2 sortedGroup categorizedApps sorted →
  concat sorted.*2 ≡ₚ concat categorizedApps.*2.
Proof.
  induction 1 as [|e e' ?? (_ & Hsort & _) _ IH]; csimpl; [done|].
  by rewrite (arraySort_perm _ _ _ Hsort), IH.
Qed.

Lemma sortedGroup_elem_of categorizedApps sorted category apps' :
  Forall2 sortedGroup categorizedApps sorted →
  (category, apps') ∈ sorted →
  ∃ apps, (category, apps) ∈ categorizedApps
          ∧ arraySort appsByName apps = Normal apps'
          ∧ ∃ filteredApps, cmapM cleanApp apps' = Normal filteredApps.
Proof.
  induction 1 as [|[c apps] [c' sortedApps] ?? (Hkey & Hsort & Hclean) _ IH];
    [by intros ?%elem_of_nil|].
  simpl in *. intros [[= -> ->]|Hin]%elem_of_cons.
  - exists apps. subst. split_and!; [by left|done..].
  - destruct (IH Hin) as (apps0 & ? & ?). exists apps0. split; [by right|done].
Qed.

Lemma elem_of_manifestWrites sorted file text :
  (file, text) ∈ manifestWrites env sorted ↔
  ∃ category apps filteredApps,
    (category, apps) ∈ sorted
    ∧ writeError env (releaseFileNameOf category) = None
    ∧ cmapM cleanApp apps = Normal filteredApps
    ∧ file = releaseFileNameOf category
    ∧ text = JSON_stringify (releaseData category apps filteredApps).
Proof.
  unfold manifestWrites. rewrite list_elem_of_omap. split.
  - intros ([category apps] & Hin & Hwrite). simpl in Hwrite.
    destruct (writeError env (releaseFileNameOf category)) eqn:?; [done|].
    destruct (cmapM cleanApp apps) as [filteredApps|] eqn:?; [|done].
    injection Hwrite as <- <-. by exists category, apps, filteredApps.
  - intros (category & apps & filteredApps & Hin & Hwrite & Hclean & -> & ->).
    exists (category, apps). split; [done|]. simpl. by rewrite Hwrite, Hclean.
Qed.



Lemma left_obsolete sorted others files file :
  isCategoryFile file →
  unlinkError env file = None →
  file ∉ (manifestWrites env sorted).*1 →
  withoutObsolete env (manifestWrites env sorted).*1
    (writeAll (manifestWrites env sorted ++ others ++ releasesWrite env sorted) files)
  !! file = None.
Proof.
  intros Hcat Hunlink Hnotin. apply map_lookup_filter_None. right.
  intros text _ Hkeep. by apply Hkeep.
Qed.
End Claims.


Section Reconciliation.
Context `{Host} (env : Env).

(** A group of the run holds a descriptor that loaded and declares its
    category. *)
Lemma grouped_inhabited categorizedApps loaded category apps :
  grouped categorizedApps loaded →
  (category, apps) ∈ categorizedApps →
  apps = filter (hasCategory category) loaded
  ∧ ∃ metadata, metadata ∈ loaded ∧ hasCategory category metadata.
Proof.
  intros (Hnodup & Hgroups & _) Hin%(elem_of_getOwn _ _ _ Hnodup).
  rewrite Hgroups in Hin. apply nonEmpty_Some in Hin as [<- Hne]. split; [done|].
  destruct (filter (hasCategory category) loaded) as [|metadata rest] eqn:Hfilter;
    [done|].
  exists metadata. apply and_comm, (list_elem_of_filter (hasCategory category)).
  rewrite Hfilter. by left.
Qed.

(** What a completed run that found descriptor files leaves. *)
Lemma main_completed d :
  metadataFilesOf env ≠ [] →
  resultOf (main env d) = Normal () →
  ∃ categorizedApps sorted others,
    grouped categorizedApps (loadedDescriptors env (metadataFilesOf env))
    ∧ Forall2 sortedGroup categorizedApps sorted
    ∧ (sorted ≠ [] → indexable sorted)
    ∧ (∀ file, file ∈ others.*1 → file = "categories.json")
    ∧ dirOf (main env d)
      = Some (withoutObsolete env (manifestWrites env sorted).*1
                (writeAll (manifestWrites env sorted ++ others
                           ++ releasesWrite env sorted) (default ∅ d))).
Proof.
  intros Hfound Hresult.
  pose proof (effectOf_pair (main env d)) as Hrun. rewrite Hresult in Hrun.
  rewrite main_returned in Hrun by done. fold (metadataFilesOf env) in Hrun.
  rewrite bool_decide_false in Hrun by (by destruct (metadataFilesOf env)).
  by apply generate_completed.
Qed.

(** C1, as the code has it. After a run that found at least one descriptor
    file and returned, a category file of the directory that is the manifest
    of no category declared by a descriptor that loaded, and whose removal
    the file system does not refuse, is gone; a run that finds no descriptor
    file returns before it writes or removes anything. *)
Theorem C1_obsolete_manifests_removed d file :
  isCategoryFile file →
  unlinkError env file = None →
  resultOf (main env d) = Normal () →
  (∀ category metadata,
     metadata ∈ loadedDescriptors env (metadataFilesOf env) →
     hasCategory category metadata → releaseFileNameOf category ≠ file) →
  (metadataFilesOf env ≠ [] → fileIn (dirOf (main env d)) file = None)
  ∧ (metadataFilesOf env = [] → effectOf (main env d) = (Normal (), d)).
Proof.
  intros Hcat Hunlink Hresult Hobsolete. split.
  - intros Hfound.
    destruct (main_completed d Hfound Hresult)
      as (categorizedApps & sorted & others & Hgrouped & Hsorted & _ & _ & ->).
    simpl. apply left_obsolete; [done..|].
    intros ([file' text] & -> & Hin)%list_elem_of_fmap.
    apply elem_of_manifestWrites in Hin
      as (category & apps' & _ & Hin & _ & _ & Hname & _).
    simpl in Hname |- *.
    destruct (sortedGroup_elem_of _ _ _ _ Hsorted Hin) as (apps & Hin' & _).
    destruct (grouped_inhabited _ _ _ _ Hgrouped Hin')
      as (_ & metadata & Hloaded & Hcategory).
    by apply (Hobsolete category metadata).
  - intros Hnone. rewrite main_returned by done. fold (metadataFilesOf env).
    by rewrite Hnone.
Qed.

End Reconciliation.

(** ** The claims on inputs *)


(** C1 fails when no descriptor file is found: the run returns and the
    manifest left by an earlier run, of a category that has no descriptor,
    is still there. *)
Lemma C1_stale_manifest_survives_empty_run :
  @metadataFilesOf codeUnitHost noRepositoriesEnv = []
  ∧ resultOf (@main codeUnitHost noRepositoriesEnv staleDir) = Normal ()
  ∧ fileIn (dirOf (@main codeUnitHost noRepositoriesEnv staleDir))
      "category-games.json" = Some "{}".
Proof. by vm_compute. Qed.

Lemma C1_witness :
  (@metadataFilesOf codeUnitHost fooBarEnv ≠ [] →
   fileIn (dirOf (@main codeUnitHost fooBarEnv staleDir)) "category-games.json"
   = None)
  ∧ (@metadataFilesOf codeUnitHost fooBarEnv = [] →
     effectOf (@main codeUnitHost fooBarEnv staleDir) = (Normal (), staleDir)).
Proof.
  apply (@C1_obsolete_manifests_removed codeUnitHost fooBarEnv staleDir
           "category-games.json").
  - reflexivity.
  - reflexivity.
  - vm_compute. reflexivity.
  - intros category metadata Hin Hcategory Hname.
    vm_compute in Hin.
    apply elem_of_cons in Hin as [->|Hin];
      [|apply elem_of_cons in Hin as [->|Hin]; [|by apply elem_of_nil in Hin]];
      vm_compute in Hcategory; injection Hcategory as <-; discriminate Hname.
Defined.



Lemma C3_witness :
  ∃ before field after,
    requiredFields = before ++ field :: after
    ∧ absentOrEmpty
        [("name", JStr "Foo"); ("category", JStr "Tools");
         ("description", JStr "d"); ("version", JStr "");
         ("commit", JStr "abc"); ("owner", JStr "o1"); ("repo", JStr "r1")] field
    ∧ (∀ earlier, earlier ∈ before →
         ¬ absentOrEmpty
             [("name", JStr "Foo"); ("category", JStr "Tools");
              ("description", JStr "d"); ("version", JStr "");
              ("commit", JStr "abc"); ("owner", JStr "o1"); ("repo", JStr "r1")]
             earlier)
    ∧ @loadMetadata codeUnitHost noVersionEnv
        "/app/scripts/../repositories/foo/metadata.json"
      = (None,
         [ConsoleWarn ("⚠️ Skipping "
                       +:+ "/app/scripts/../repositories/foo/metadata.json"
                       +:+ ": missing or empty field '" +:+ field +:+ "'")])
    ∧ (∀ categorizedApps processedCount skippedCount d,
         @groupStep codeUnitHost noVersionEnv
           (categorizedApps, processedCount, skippedCount)
           "/app/scripts/../repositories/foo/metadata.json" d
         = (Normal (categorizedApps, processedCount, S skippedCount), d,
            [ConsoleWarn ("⚠️ Skipping "
                          +:+ "/app/scripts/../repositories/foo/metadata.json"
                          +:+ ": missing or empty field '" +:+ field +:+ "'")]))
    ∧ (∀ l1 l2 d,
         effectOf (@generate codeUnitHost noVersionEnv
                     (l1 ++ "/app/scripts/../repositories/foo/metadata.json" :: l2) d)
         = effectOf (@generate codeUnitHost noVersionEnv (l1 ++ l2) d)).
Proof.
  apply (@C3_invalid_descriptor codeUnitHost noVersionEnv
           "/app/scripts/../repositories/foo/metadata.json").
  - reflexivity.
  - exists "version". split; [|right; right; reflexivity].
    apply list_elem_of_In. simpl. tauto.
Defined.



Lemma C5_witness :
  ∃ owner repo path name,
    ToStringOpt (getOwn "owner" (descriptor "Bar" "Tools" "2.0" "def" "o2" "r2" "/b/"))
    = Normal owner
    ∧ ToStringOpt (getOwn "repo" (descriptor "Bar" "Tools" "2.0" "def" "o2" "r2" "/b/"))
      = Normal repo
    ∧ ToStringOpt (getOwn "path" (descriptor "Bar" "Tools" "2.0" "def" "o2" "r2" "/b/"))
      = Normal path
    ∧ ToStringOpt (getOwn "name" (descriptor "Bar" "Tools" "2.0" "def" "o2" "r2" "/b/"))
      = Normal name
    ∧ re_slug {| re_name := Some (JStr "Bar"); re_version := Some (JStr "2.0");
                 re_slug := "o2/r2/b/Bar" |}
      = collapseRuns (owner +:+ "/" +:+ repo +:+ path +:+ name)
    ∧ re_name {| re_name := Some (JStr "Bar"); re_version := Some (JStr "2.0");
                 re_slug := "o2/r2/b/Bar" |}
      = getOwn "name" (descriptor "Bar" "Tools" "2.0" "def" "o2" "r2" "/b/")
    ∧ re_version {| re_name := Some (JStr "Bar"); re_version := Some (JStr "2.0");
                    re_slug := "o2/r2/b/Bar" |}
      = getOwn "version" (descriptor "Bar" "Tools" "2.0" "def" "o2" "r2" "/b/")
    ∧ collapseRuns ("o2" +:+ "/" +:+ "r2" +:+ "/b/" +:+ "Bar") = "o2/r2/b/Bar".
Proof.
  apply (C5_release_slug
           (descriptor "Bar" "Tools" "2.0" "def" "o2" "r2" "/b/")).
  reflexivity.
Defined.

(** C6 fails for [location]: the manifest entry of a descriptor that has a
    field of that name keeps it; what the entry leaves out is [filePath],
    the directory the loader attached. *)
Lemma C6_location_is_kept :
  (@loadMetadata codeUnitHost locatedEnv
     "/app/scripts/../repositories/gizmo/metadata.json").1
  = Some (locatedDescriptor
          ++ [("filePath", JStr "/app/scripts/../repositories/gizmo")])
  ∧ fileIn (dirOf (@main codeUnitHost locatedEnv None)) "category-tools.json"
    = Some (JSON_stringify
              (JObj [("category", JStr "Tools"); ("count", JNum "1");
                     ("apps",
                      JArr [JObj [("name", JStr "gizmo"); ("version", JStr "1.0");
                                  ("description", JStr "d");
                                  ("location", JStr "attic");
                                  ("slug", JStr "acme/widgets/gizmo")]])])).
Proof. by vm_compute. Qed.

Lemma C6_witness :
  ∃ owner repo name,
    ToStringOpt (getOwn "owner"
                   (locatedDescriptor
                    ++ [("filePath", JStr "/app/scripts/../repositories/gizmo")]))
    = Normal owner
    ∧ ToStringOpt (getOwn "repo"
                     (locatedDescriptor
                      ++ [("filePath", JStr "/app/scripts/../repositories/gizmo")]))
      = Normal repo
    ∧ ToStringOpt (getOwn "name"
                     (locatedDescriptor
                      ++ [("filePath", JStr "/app/scripts/../repositories/gizmo")]))
      = Normal name
    ∧ (∀ field,
         getOwn field
           [("name", JStr "gizmo"); ("version", JStr "1.0");
            ("description", JStr "d"); ("location", JStr "attic");
            ("slug", JStr "acme/widgets/gizmo")]
         = if decide (field = "slug")
           then Some (JStr (owner +:+ "/" +:+ repo +:+ "/" +:+ name))
           else if decide (field ∈ strippedFields) then None
                else getOwn field
                       (locatedDescriptor
                        ++ [("filePath", JStr "/app/scripts/../repositories/gizmo")]))
    ∧ "acme" +:+ "/" +:+ "widgets" +:+ "/" +:+ "gizmo" = "acme/widgets/gizmo".
Proof.
  apply (C6_clean_app
           (locatedDescriptor
            ++ [("filePath", JStr "/app/scripts/../repositories/gizmo")])).
  reflexivity.
Defined.

Lemma C7_witness :
  (∀ filePath,
     @loadMetadata codeUnitHost
       (withCategoriesJson fooBarEnv (inr (JArr [JStr "Games"]))) filePath
     = @loadMetadata codeUnitHost fooBarEnv filePath)
  ∧ (∀ st filePath d',
       @groupStep codeUnitHost
         (withCategoriesJson fooBarEnv (inr (JArr [JStr "Games"]))) st filePath d'
       = @groupStep codeUnitHost fooBarEnv st filePath d')
  ∧ effectOf (@main codeUnitHost
                (withCategoriesJson fooBarEnv (inr (JArr [JStr "Games"]))) None)
    = effectOf (@main codeUnitHost fooBarEnv None)
  ∧ (∀ message,
       loadValidCategories (withCategoriesJson fooBarEnv (inl message))
       = (JArr [],
          [ConsoleWarn ("⚠️ Could not load categories.json: " +:+ message)]))
  ∧ (∀ names, printable (withCategoriesJson fooBarEnv (inr (JArr (JStr <$> names)))))
  ∧ (∀ message, printable (withCategoriesJson fooBarEnv (inl message))).
Proof.
  apply (@C7_allow_list_is_advisory codeUnitHost fooBarEnv
           (inr (JArr [JStr "Games"])) None).
  - exists "". reflexivity.
  - exists "Games". reflexivity.
Defined.

Lemma C10_witness :
  (is_Some (fileIn staleDir "categories.json") →
   is_Some (fileIn (dirOf (@main codeUnitHost noVersionEnv staleDir))
              "categories.json"))
  ∧ ((∀ filePath,
        filePath ∈ @findMetadataFiles codeUnitHost
                     (@path_join codeUnitHost [scriptDir noVersionEnv; "..";
                                               "repositories"])
                     (repositories noVersionEnv) →
        (@loadMetadata codeUnitHost noVersionEnv filePath).1 = None) →
     fileIn (dirOf (@main codeUnitHost noVersionEnv staleDir)) "categories.json"
     = fileIn staleDir "categories.json")
  ∧ isCategoryFile "categories.json" = false
  ∧ isCategoryFile "releases.json" = false.
Proof.
  apply (@C10_removal_spares_other_files codeUnitHost noVersionEnv staleDir
           "categories.json").
  reflexivity.
Defined.

(** * Further properties of the script *)

(** ** The walk of [findMetadataFiles] *)

Section Walk.
Context `{Host}.

Lemma flat_map_filtered {A} (f : A → list string) (g : A → list (string * string)) l :
  (∀ x, x ∈ l → f x = (filter isMetadataFile (g x)).*2) →
  flat_map f l = (filter isMetadataFile (flat_map g l)).*2.
Proof.
  induction l as [|x l IH]; intros Hl; simpl; [done|].
  rewrite filter_app, fmap_app, Hl by left.
  f_equal. apply IH. intros y Hy. apply Hl. by right.
Qed.

Lemma dirent_forall_ind (P : dirent → Prop) :
  (∀ name, P (FileEntry name)) →
  (∀ name items, Forall P items → P (DirEntry name items)) →
  ∀ item, P item.
Proof.
  intros Hfile Hdir. fix IH 1. intros [name|name items]; [apply Hfile|].
  apply Hdir. induction items as [|item items IHitems]; constructor;
    [apply IH | apply IHitems].
Qed.

Lemma findMetadataFilesAt_filesAt item dir :
  findMetadataFilesAt dir item = (filter isMetadataFile (filesAt dir item)).*2.
Proof.
  revert dir. induction item as [name|name items IH] using dirent_forall_ind;
    intros dir; simpl.
  - rewrite filter_cons, filter_nil. unfold isMetadataFile at 1. simpl.
    case_bool_decide; by case_decide.
  - apply flat_map_filtered. intros item Hin.
    by apply (proj1 (Forall_forall _ _) IH).
Qed.

(** X1. [findMetadataFiles] returns the paths of the files named
    [metadata.json] among all the files below the directory, at any depth,
    in the order of the walk and each once; an entry that is a directory is
    walked into whatever its name, and a directory that does not exist gives
    no path. *)
Theorem X1_findMetadataFiles_walk dir listing :
  findMetadataFiles dir listing
  = (filter isMetadataFile (filesBelow dir listing)).*2.
Proof.
  destruct listing as [items|]; simpl; [|done].
  apply flat_map_filtered. intros item _. apply findMetadataFilesAt_filesAt.
Qed.
End Walk.

Section Loading.
Context `{Host} (env : Env).

Lemma missingOrEmpty_filled metadata field :
  ¬ missingOrEmpty metadata field ↔ filled metadata field.
Proof.
  rewrite missingOrEmpty_spec. unfold absentOrEmpty, filled. split.
  - intros Hnot. destruct (getOwn field metadata) as [v|]; [|tauto].
    exists v. split_and!; [done|intros ->; tauto..].
  - intros (v & -> & Hnull & Hempty) [?|[?|?]]; congruence.
Qed.

(** X2. [loadMetadata] returns a descriptor exactly when the file parses to
    an object that has each of the eight required fields with a value other
    than [null] and the empty string, of whatever type; the descriptor is
    the object with [filePath] set, and nothing is printed. *)
Theorem X2_loadMetadata_accepts filePath metadata out :
  loadMetadata env filePath = (Some metadata, out) ↔
  ∃ parsed,
    readJson env filePath = inr (JObj parsed)
    ∧ Forall (filled parsed) requiredFields
    ∧ metadata
      = setOwn "filePath" (JStr (replaceBackslashes (path_dirname filePath))) parsed
    ∧ out = [].
Proof.
  unfold loadMetadata. split.
  - destruct (readJson env filePath) as [message|[| | | | |parsed]]; try done.
    destruct (list_find _ _) as [[i field]|] eqn:Hfind; [done|].
    intros [= <- <-]. exists parsed. split_and!; try done.
    apply list_find_None in Hfind. eapply Forall_impl; [exact Hfind|].
    intros field. apply missingOrEmpty_filled.
  - intros (parsed & -> & Hfilled & -> & ->).
    destruct (list_find _ _) as [[i field]|] eqn:Hfind; [|done].
    apply list_find_Some in Hfind as (Hin%list_elem_of_lookup_2 & Hmissing & _).
    rewrite Forall_forall in Hfilled.
    by apply Hfilled, missingOrEmpty_filled in Hin.
Qed.


(** X3. The descriptor [loadMetadata] returns has for [filePath] the
    directory of the file, its backslashes replaced by slashes, whatever
    [filePath] the file had, and has every other field as the file gave
    it. *)
Theorem X3_loadMetadata_filePath filePath parsed metadata :
  readJson env filePath = inr (JObj parsed) →
  (loadMetadata env filePath).1 = Some metadata →
  getOwn "filePath" metadata
  = Some (JStr (replaceBackslashes (path_dirname filePath)))
  ∧ (∀ field, field ≠ "filePath" → getOwn field metadata = getOwn field parsed)
  ∧ (∀ i, String.get i (replaceBackslashes (path_dirname filePath))
          ≠ Some "\"%char).
Proof.
  unfold loadMetadata. intros -> Hload.
  destruct (list_find _ _) as [[i field]|]; [done|].
  injection Hload as <-. split_and!.
  - rewrite getOwn_setOwn. by case_decide.
  - intros field Hfield. rewrite getOwn_setOwn. by case_decide.
  - intros i. unfold replaceBackslashes. rewrite string_map_get.
    destruct (String.get i _) as [c|]; simpl; [|done].
    unfold ascii_eqb. case_bool_decide; congruence.
Qed.
End Loading.

Section Counting.
Context `{Host} (env : Env).

Lemma loadedDescriptors_cons filePath files :
  loadedDescriptors env (filePath :: files)
  = match (loadMetadata env filePath).1 with
    | Some metadata => metadata :: loadedDescriptors env files
    | None => loadedDescriptors env files
    end.
Proof. unfold loadedDescriptors. simpl. by destruct (loadMetadata env filePath).1. Qed.


End Counting.

Section Prototype.
Context `{Host} (env : Env).

Lemma addToCategory_keys categorizedApps metadata categorizedApps' :
  Forall (λ k, inherited k = false) categorizedApps.*1 →
  addToCategory categorizedApps metadata = Normal categorizedApps' →
  Forall (λ k, inherited k = false) categorizedApps'.*1.
Proof.
  intros Hkeys. unfold addToCategory.
  destruct (ToStringOpt (getOwn "category" metadata)) as [category|]; [|done].
  simpl. destruct (getOwn category categorizedApps) as [apps|] eqn:Hget.
  - intros [= <-]. by rewrite replaceOwn_keys.
  - destruct (inherited category) eqn:Hinherited; [done|]. intros [= <-].
    rewrite (setOwn_new_perm category [metadata] categorizedApps Hget).
    by constructor.
Qed.

Lemma addToCategory_inherited categorizedApps metadata category :
  Forall (λ k, inherited k = false) categorizedApps.*1 →
  hasCategory category metadata →
  inherited category = true →
  ∃ e, addToCategory categorizedApps metadata = Throw e.
Proof.
  intros Hkeys Hcategory Hinherited. unfold addToCategory.
  rewrite Hcategory. simpl.
  destruct (getOwn category categorizedApps) as [apps|] eqn:Hget.
  - apply getOwn_elem_of in Hget. rewrite Forall_forall in Hkeys.
    assert (inherited category = false); [|congruence].
    apply Hkeys. apply list_elem_of_fmap. by exists (category, apps).
  - rewrite Hinherited. by eexists.
Qed.

Lemma grouping_inherited files metadata category :
  metadata ∈ loadedDescriptors env files →
  hasCategory category metadata →
  inherited category = true →
  ∀ categorizedApps processedCount skippedCount d,
    Forall (λ k, inherited k = false) categorizedApps.*1 →
    ∃ e, effectOf (foldM (groupStep env) files
                     (categorizedApps, processedCount, skippedCount) d)
         = (Throw e, d).
Proof.
  intros Hin Hcategory Hinherited.
  induction files as [|filePath files IH];
    intros categorizedApps processedCount skippedCount d Hkeys.
  { by apply elem_of_nil in Hin. }
  rewrite loadedDescriptors_cons in Hin. cbn [foldM].
  unfold effectOf. rewrite bind_eq, groupStep_run.
  destruct (loadMetadata env filePath).1 as [loaded|].
  - destruct (addToCategory categorizedApps loaded) as [categorizedApps1|e] eqn:Hadd.
    2:{ simpl. by exists e. }
    simpl.
    destruct (ToStringOpt (getOwn "name" loaded)) as [name|e]; [|by exists e].
    simpl.
    destruct (ToStringOpt (getOwn "category" loaded)) as [category'|e];
      [|by exists e].
    simpl.
    apply elem_of_cons in Hin as [->|Hin].
    { destruct (addToCategory_inherited categorizedApps loaded category)
        as [e He]; [done..|]. congruence. }
    destruct (IH Hin categorizedApps1 (S processedCount) skippedCount d) as [e He].
    { by eapply addToCategory_keys. }
    exists e. unfold effectOf in He.
    destruct (foldM _ _ _ _) as [[r2 d2] out2]. simpl in He. by simplify_eq.
  - destruct (IH Hin categorizedApps processedCount (S skippedCount) d Hkeys)
      as [e He].
    exists e. unfold effectOf in He.
    destruct (foldM _ _ _ _) as [[r2 d2] out2]. simpl in He. by simplify_eq.
Qed.

Lemma script_throws d e :
  effectOf (main env d) = (Throw e, d) → (script env d).1 = (1%nat, d).
Proof.
  unfold script, effectOf. destruct (main env d) as [[r d'] out]. simpl.
  by intros [= -> ->].
Qed.

(** X5. A descriptor that loads with a category named like a property of
    [Object.prototype] ([constructor], [toString], ...) makes the run throw
    before it makes the directory or writes a file; the script exits with
    status 1. *)
Theorem X5_prototype_category_throws d metadata category :
  metadata ∈ loadedDescriptors env (metadataFilesOf env) →
  hasCategory category metadata →
  inherited category = true →
  ∃ e,
    effectOf (main env d) = (Throw e, d)
    ∧ (script env d).1 = (1%nat, d).
Proof.
  intros Hin Hcategory Hinherited.
  assert (∃ e, effectOf (main env d) = (Throw e, d)) as [e He].
  { rewrite main_run.
    destruct (join ", " (loadValidCategories env).1) as [listed|e]; [|by exists e].
    fold (metadataFilesOf env). rewrite bool_decide_false.
    2:{ destruct (metadataFilesOf env); [by apply elem_of_nil in Hin | done]. }
    destruct (grouping_inherited _ _ _ Hin Hcategory Hinherited [] 0%nat 0%nat d)
      as [e He]; [constructor|].
    exists e. unfold generate. by apply effectOf_throw. }
  exists e. split; [done|]. by apply (script_throws d e).
Qed.
End Prototype.

(** X6. When [categories.json] parses to a value that is not an array,
    [main] throws at line 73, after its first line of output and before it
    looks for descriptor files; the directory is left alone and the script
    exits with status 1. *)
Theorem X6_allow_list_not_array `{Host} env value d :
  categoriesJson env = inr value →
  (∀ items, value ≠ JArr items) →
  ∃ e,
    main env d = (Throw e, d, [ConsoleLog "🔄 Generating release files..."])
    ∧ (script env d).1 = (1%nat, d).
Proof.
  intros Hjson Harray. unfold script, main, loadValidCategories. rewrite Hjson.
  destruct value as [|b|text|s|items|props]; try (by eexists);
    by destruct (Harray items).
Qed.

Section AllSkipped.
Context `{Host} (env : Env).

Lemma effectOf_publish_nothing processedCount skippedCount d :
  effectOf (publish env [] processedCount skippedCount d)
  = (Normal (), Some (withoutObsolete env [] (default ∅ d))).
Proof.
  unfold publish. erewrite effectOf_normal; [|done].
  rewrite effectOf_ensureReleasesDir. cbn [foldM].
  erewrite effectOf_normal; [|done]. cbv beta iota.
  do 2 (erewrite effectOf_normal; [|done]).
  erewrite effectOf_normal; [|apply removeObsolete_run]. done.
Qed.

Lemma lookup_withoutObsolete releaseFiles (files : gmap string string) file :
  withoutObsolete env releaseFiles files !! file
  = if decide (removable env releaseFiles file) then None else files !! file.
Proof.
  unfold withoutObsolete. destruct (files !! file) as [text|] eqn:Hfile.
  - case_decide as Hrem.
    + apply map_lookup_filter_None. right. intros text' _. simpl. tauto.
    + apply map_lookup_filter_Some. by split.
  - case_decide; apply map_lookup_filter_None; by left.
Qed.

(** X8. When descriptor files are found and none loads, the run returns,
    the directory exists afterwards, every category file whose removal is
    not refused is gone and every other file, [categories.json] and
    [releases.json] among them, is as it was. *)
Theorem X8_no_descriptor_loads d :
  printable env →
  metadataFilesOf env ≠ [] →
  (∀ filePath, filePath ∈ metadataFilesOf env →
     (loadMetadata env filePath).1 = None) →
  resultOf (main env d) = Normal ()
  ∧ is_Some (dirOf (main env d))
  ∧ ∀ file,
      fileIn (dirOf (main env d)) file
      = if decide (isCategoryFile file ∧ unlinkError env file = None)
        then None else fileIn d file.
Proof.
  intros [listed Hlisted] Hfound Hnone.
  assert (effectOf (main env d)
          = (Normal (), Some (withoutObsolete env [] (default ∅ d)))) as Hrun.
  { rewrite main_run, Hlisted. fold (metadataFilesOf env).
    rewrite bool_decide_false by (by destruct (metadataFilesOf env)).
    unfold generate.
    destruct (groupStep_all_skipped env (metadataFilesOf env) [] 0%nat 0%nat d Hnone)
      as [out Hgroup].
    erewrite effectOf_normal; [|unfold effectOf; by rewrite Hgroup].
    apply effectOf_publish_nothing. }
  rewrite effectOf_pair in Hrun. injection Hrun as -> ->.
  split_and!; [done..|]. intros file. simpl.
  rewrite lookup_withoutObsolete. unfold removable.
  assert (fileIn d file = default ∅ d !! file) as ->.
  { destruct d; [done|]. simpl. by rewrite lookup_empty. }
  apply decide_ext. split; [|intros [? ?]; split_and!; [done| |done]].
  - by intros (? & _ & ?).
  - apply not_elem_of_nil.
Qed.
End AllSkipped.

(** ** Names *)

Lemma rev_app_append s1 s2 acc :
  String.rev_app (s1 +:+ s2) acc = String.rev_app s2 (String.rev_app s1 acc).
Proof. revert acc. induction s1 as [|c s1 IH]; intros acc; simpl; [done|apply IH]. Qed.

Lemma endsWith_append s suffix : endsWith (s +:+ suffix) suffix = true.
Proof.
  unfold endsWith, String.rev. rewrite rev_app_append.
  generalize (String.rev_app s "") as acc.
  assert (∀ p acc acc',
            String.prefix (String.rev_app p acc) (String.rev_app p acc')
            = String.prefix acc acc') as Hprefix.
  { induction p as [|c p IH]; intros acc acc'; simpl; [done|].
    rewrite IH. simpl. by destruct (ascii_dec c c). }
  intros acc. rewrite Hprefix. by destruct acc.
Qed.

Lemma string_app_assoc (s1 s2 s3 : string) : (s1 +:+ s2) +:+ s3 = s1 +:+ (s2 +:+ s3).
Proof.
  induction s1 as [|c s1 IH]; [done|].
  change (String c ((s1 +:+ s2) +:+ s3) = String c (s1 +:+ (s2 +:+ s3))).
  by f_equal.
Qed.

Lemma startsWith_append s p : startsWith (p +:+ s) p = true.
Proof.
  unfold startsWith. induction p as [|c p IH]; [by destruct s|].
  change (String c p +:+ s) with (String c (p +:+ s)). simpl.
  by destruct (ascii_dec c c).
Qed.

Lemma isCategoryFile_releaseFileNameOf category :
  isCategoryFile (releaseFileNameOf category) = true.
Proof.
  unfold isCategoryFile, releaseFileNameOf.
  rewrite <-string_app_assoc, endsWith_append.
  by rewrite string_app_assoc, startsWith_append.
Qed.

Lemma releaseFileNameOf_not_categories category :
  releaseFileNameOf category ≠ "categories.json".
Proof.
  intros Hname. pose proof (isCategoryFile_releaseFileNameOf category) as Hcat.
  by rewrite Hname in Hcat.
Qed.

(** X10. The file name of the manifest of any category passes the filter of
    the removal of obsolete files, and is neither [categories.json] nor
    [releases.json]. *)
Theorem X10_manifest_names category :
  isCategoryFile (releaseFileNameOf category) = true
  ∧ releaseFileNameOf category ≠ "categories.json"
  ∧ releaseFileNameOf category ≠ "releases.json".
Proof.
  split_and!.
  - apply isCategoryFile_releaseFileNameOf.
  - apply releaseFileNameOf_not_categories.
  - apply releaseFileNameOf_not_releases.
Qed.

Lemma string_map_ext f g s : (∀ c, f c = g c) → string_map f s = string_map g s.
Proof. intros Hfg. induction s as [|c s IH]; simpl; [done|]. by rewrite Hfg, IH. Qed.

Lemma sanitizedChar_alphabet c :
  is_lower (sanitizedChar c) || is_digit (sanitizedChar c)
  || ascii_eqb (sanitizedChar c) "-" = true.
Proof. destruct c as [[] [] [] [] [] [] [] []]; by vm_compute. Qed.

Lemma sanitizedChar_idemp c : sanitizedChar (sanitizedChar c) = sanitizedChar c.
Proof. destruct c as [[] [] [] [] [] [] [] []]; by vm_compute. Qed.

Lemma sanitizedChar_lower c : sanitizedChar (lower_char c) = sanitizedChar c.
Proof. destruct c as [[] [] [] [] [] [] [] []]; by vm_compute. Qed.

(** X11. The slug of a category has only characters of [[a-z0-9]] and
    [-]; the slug of a slug is the slug; two categories that differ in the
    case of their letters only have the same manifest file. *)
Theorem X11_category_slug category :
  (∀ i c, String.get i (categorySlug category) = Some c →
     is_lower c || is_digit c || ascii_eqb c "-" = true)
  ∧ categorySlug (categorySlug category) = categorySlug category
  ∧ releaseFileNameOf (toLowerCase category) = releaseFileNameOf category.
Proof.
  split_and!.
  - intros i c. rewrite categorySlug_chars, string_map_get.
    destruct (String.get i category) as [c'|]; [|done].
    intros [= <-]. apply sanitizedChar_alphabet.
  - rewrite !categorySlug_chars, string_map_map.
    apply string_map_ext, sanitizedChar_idemp.
  - unfold releaseFileNameOf. rewrite !categorySlug_chars. unfold toLowerCase.
    rewrite string_map_map. do 2 f_equal.
    apply string_map_ext, sanitizedChar_lower.
Qed.

Lemma collapseSlashes_cons c c' s :
  collapseSlashes (String c (String c' s))
  = if ascii_eqb c "/"%char && ascii_eqb c' "/"%char
    then collapseSlashes (String c' s)
    else String c (collapseSlashes (String c' s)).
Proof. done. Qed.

Lemma collapseSlashes_head s : String.get 0 (collapseSlashes s) = String.get 0 s.
Proof.
  induction s as [|c s IH]; [done|]. destruct s as [|c' s]; [done|].
  rewrite collapseSlashes_cons.
  destruct (ascii_eqb c "/"%char && ascii_eqb c' "/"%char) eqn:Hslashes; [|done].
  rewrite IH. simpl.
  apply andb_true_iff in Hslashes as [Hc Hc']. unfold ascii_eqb in *.
  apply bool_decide_eq_true in Hc, Hc'. congruence.
Qed.

Lemma collapseSlashes_noDoubleSlash s : noDoubleSlash (collapseSlashes s).
Proof.
  induction s as [|c s IH]; [by intros i|]. destruct s as [|c' s].
  { intros [|i]; simpl; [done|]. by destruct i. }
  rewrite collapseSlashes_cons.
  destruct (ascii_eqb c "/"%char && ascii_eqb c' "/"%char) eqn:Hslashes; [done|].
  intros [|i]; [|apply IH].
  cbn [String.get]. intros [= ->] Hnext.
  rewrite collapseSlashes_head in Hnext. simpl in Hnext.
  injection Hnext as ->. done.
Qed.

Lemma collapseSlashes_id s : noDoubleSlash s → collapseSlashes s = s.
Proof.
  induction s as [|c s IH]; [done|]. destruct s as [|c' s]; [done|].
  intros Hs. rewrite collapseSlashes_cons.
  destruct (ascii_eqb c "/"%char && ascii_eqb c' "/"%char) eqn:Hslashes.
  - apply andb_true_iff in Hslashes as [Hc Hc']. unfold ascii_eqb in *.
    apply bool_decide_eq_true in Hc, Hc'. subst. by destruct (Hs 0%nat).
  - f_equal. apply IH. intros i. apply (Hs (S i)).
Qed.

(** X12. In the slug of an entry of the Releases Index no slash is followed
    by a slash, and the replacement applied again leaves the slug as it
    is. *)
Theorem X12_release_slug_slashes app entry :
  releaseEntryOf app = Normal entry →
  noDoubleSlash (re_slug entry)
  ∧ collapseSlashes (re_slug entry) = re_slug entry.
Proof.
  unfold releaseEntryOf. intros Hentry.
  destruct (ToStringOpt (getOwn "owner" app)) as [owner|]; [|done].
  destruct (ToStringOpt (getOwn "repo" app)) as [repo|]; [|done].
  destruct (ToStringOpt (getOwn "path" app)) as [path|]; [|done].
  destruct (ToStringOpt (getOwn "name" app)) as [name|]; [|done].
  simpl in Hentry. injection Hentry as <-. cbn [re_slug].
  split; [apply collapseSlashes_noDoubleSlash|].
  apply collapseSlashes_id, collapseSlashes_noDoubleSlash.
Qed.

(** ** Runs that return *)

Section SortTotal.
Context {A : Type} (comparefn : A → A → completion Z).


End SortTotal.


Section Returns.
Context `{Host} (env : Env).








End Returns.

Section ReturnsRun.
Context `{Host} (env : Env).




End ReturnsRun.

(** ** The texts a run leaves *)

#[local] Instance asBeforeOr_preorder written : PreOrder (asBeforeOr written).
Proof.
  split; [by left|].
  intros d1 d2 d3 H12 H23 file text Hfile.
  destruct (H23 file text Hfile) as [Hold|Hnew]; [by apply H12 | by right].
Qed.

Section Texts.
Context `{Host} (env : Env).





End Texts.

Section Refused.
Context `{Host} (env : Env).

Lemma releasesWrite_names categorizedApps file :
  file ∈ (releasesWrite env categorizedApps).*1 → file = "releases.json".
Proof.
  unfold releasesWrite. case_bool_decide; [|by intros ?%elem_of_nil].
  destruct (_ ≫= _) as [allApps|e]; [|by intros ?%elem_of_nil].
  destruct (writeError env "releases.json"); [by intros ?%elem_of_nil|].
  by intros ->%list_elem_of_singleton.
Qed.

(** X18. After a run that returns, a category file whose removal the file
    system refuses, and that is the manifest of no category of a descriptor
    that loaded, is as it was. *)
Theorem X18_refused_removal_keeps_file d file :
  isCategoryFile file →
  is_Some (unlinkError env file) →
  resultOf (main env d) = Normal () →
  (∀ category metadata,
     metadata ∈ loadedDescriptors env (metadataFilesOf env) →
     hasCategory category metadata → releaseFileNameOf category ≠ file) →
  fileIn (dirOf (main env d)) file = fileIn d file.
Proof.
  intros Hcat [e Hunlink] Hresult Hobsolete.
  destruct (decide (metadataFilesOf env = [])) as [Hnone|Hfound].
  { pose proof (main_returned env d Hresult) as Hrun.
    fold (metadataFilesOf env) in Hrun. rewrite Hnone in Hrun. simpl in Hrun.
    rewrite effectOf_pair in Hrun. by injection Hrun as _ ->. }
  destruct (main_completed env d Hfound Hresult)
    as (categorizedApps & sorted & others & Hgrouped & Hsorted & _ & Hothers & ->).
  simpl. rewrite lookup_withoutObsolete.
  rewrite decide_False by (intros (_ & _ & ?); congruence).
  rewrite lookup_writeAll_notin.
  { destruct d; [done|]. simpl. by rewrite lookup_empty. }
  rewrite !fmap_app, !elem_of_app. intros [Hin|[Hin|Hin]].
  - apply list_elem_of_fmap in Hin as ([file' text] & -> & Hin).
    apply elem_of_manifestWrites in Hin
      as (category & apps' & _ & Hin & _ & _ & Hname & _).
    simpl in Hname.
    destruct (sortedGroup_elem_of _ _ _ _ Hsorted Hin) as (apps & Hin' & _).
    destruct (grouped_inhabited _ _ _ _ Hgrouped Hin')
      as (_ & metadata & Hloaded & Hcategory).
    by apply (Hobsolete category metadata).
  - apply Hothers in Hin. by subst file.
  - apply releasesWrite_names in Hin. by subst file.
Qed.
End Refused.

(** ** The totals of the Categories Index *)

Lemma foldl_lengths {A} (l : list (list A)) n :
  foldl (λ sum apps, sum + length apps)%nat n l = (n + length (concat l))%nat.
Proof.
  revert n. induction l as [|apps l IH]; intros n; simpl; [lia|].
  rewrite IH, length_app. lia.
Qed.

Section Totals.
Context `{Host} (env : Env).

Lemma categoryLoop_categories rest :
  ∀ categorizedApps releaseFiles categoriesWithReleases files
    categorizedApps' releaseFiles' categoriesWithReleases' d',
    effectOf (foldM (categoryStep env) rest
                (categorizedApps, releaseFiles, categoriesWithReleases) (Some files))
    = (Normal (categorizedApps', releaseFiles', categoriesWithReleases'), d') →
    categoriesWithReleases'
    = categoriesWithReleases ++ writableCategories env rest.*1.
Proof.
  induction rest as [|[category apps] rest IH];
    intros categorizedApps releaseFiles categoriesWithReleases files
      categorizedApps' releaseFiles' categoriesWithReleases' d' Hrun;
    cbn [foldM] in Hrun.
  { injection Hrun as <- <- <- <-. by rewrite app_nil_r. }
  unfold effectOf in Hrun. rewrite bind_eq, categoryStep_run in Hrun.
  destruct (arraySort appsByName apps) as [sorted|e]; [|done].
  destruct (cmapM cleanApp sorted) as [filteredApps|e]; [|done].
  cbv zeta in Hrun. unfold writableCategories. csimpl. rewrite filter_cons.
  destruct (writeError env (releaseFileNameOf category)) as [message|] eqn:Hwrite.
  - rewrite decide_False by done.
    destruct (foldM _ _ _ _) as [[r2 d2] out2] eqn:Hrest. simpl in Hrun.
    injection Hrun as -> ->.
    eapply IH. unfold effectOf. by rewrite Hrest.
  - rewrite decide_True by done.
    destruct (foldM _ _ _ _) as [[r2 d2] out2] eqn:Hrest. simpl in Hrun.
    injection Hrun as -> ->.
    rewrite (cons_middle category), app_assoc.
    eapply IH. unfold effectOf. by rewrite Hrest.
Qed.

Lemma groupSize_sorted categorizedApps sorted category :
  Forall2 sortedGroup categorizedApps sorted →
  groupSize sorted category = groupSize categorizedApps category.
Proof.
  unfold groupSize.
  induction 1 as [|[k apps] [k' apps'] ?? (Hkey & Hsorted & _) _ IH]; [done|].
  simpl in *. subst k'. case_bool_decide; [|done]. simpl.
  by rewrite (arraySort_perm _ _ _ Hsorted).
Qed.

Lemma groupSize_grouped categorizedApps loaded category :
  grouped categorizedApps loaded →
  groupSize categorizedApps category = length (filter (hasCategory category) loaded).
Proof.
  intros (_ & Hgroups & _). unfold groupSize. rewrite Hgroups.
  by destruct (filter _ _).
Qed.

Lemma elem_of_grouped_keys categorizedApps loaded category :
  grouped categorizedApps loaded →
  category ∈ categorizedApps.*1 ↔
  ∃ metadata, metadata ∈ loaded ∧ hasCategory category metadata.
Proof.
  intros (_ & Hgroups & _). specialize (Hgroups category).
  pose proof (getOwn_None category categorizedApps) as Hnone.
  rewrite Hgroups in Hnone. split.
  - intros Hin. destruct (filter (hasCategory category) loaded) as [|metadata l] eqn:Hl.
    { by apply Hnone in Hin. }
    exists metadata. apply and_comm, (list_elem_of_filter (hasCategory category)).
    rewrite Hl. by left.
  - intros (metadata & Hin & Hcategory).
    destruct (decide (category ∈ categorizedApps.*1)) as [|Hnotin]; [done|].
    apply Hnone in Hnotin.
    assert (metadata ∈ filter (hasCategory category) loaded) as Hfiltered.
    { by apply list_elem_of_filter. }
    destruct (filter (hasCategory category) loaded); [|done].
    by apply elem_of_nil in Hfiltered.
Qed.
Lemma publish_categories_index categorizedApps processedCount skippedCount d d' :
  NoDup categorizedApps.*1 →
  effectOf (publish env categorizedApps processedCount skippedCount d)
  = (Normal (), d') →
  writeError env "categories.json" = None →
  writableCategories env categorizedApps.*1 ≠ [] →
  ∃ sorted counts,
    Forall2 sortedGroup categorizedApps sorted
    ∧ arraySort countsByName
        ((λ category, {| cc_name := category; cc_slug := categorySlug category;
                         cc_count := groupSize sorted category |})
           <$> writableCategories env categorizedApps.*1) = Normal counts
    ∧ fileIn d' "categories.json"
      = Some (JSON_stringify
                (categoriesData sorted (writableCategories env categorizedApps.*1)
                   counts)).
Proof.
  intros Hnodup Hrun Hwrite Hsome. unfold publish in Hrun.
  erewrite effectOf_normal in Hrun; [|done].
  rewrite effectOf_ensureReleasesDir in Hrun.
  run_in Hrun as [[sorted releaseFiles] categoriesWithReleases].
  pose proof (categoryLoop_categories _ _ _ _ _ _ _ _ _ Hm) as Hcats.
  simpl in Hcats. subst categoriesWithReleases.
  apply (categoryLoop_completed env categorizedApps []) in Hm
    as (sorted' & -> & Hsorted & -> & ->); [|done].
  simpl in Hrun. run_in Hrun as [].
  unfold writeCategoriesIndex in Hm.
  rewrite bool_decide_true in Hm.
  2:{ destruct (writableCategories env categorizedApps.*1); [done|simpl; lia]. }
  destruct (arraySort countsByName _) as [counts|e] eqn:Hcounts.
  2:{ by erewrite effectOf_throw in Hm. }
  erewrite effectOf_normal in Hm; [|done].
  erewrite effectOf_normal in Hm; [|unfold writeFileSync; by rewrite Hwrite].
  injection Hm as <-.
  run_in Hrun as []. apply writeReleasesIndex_completed in Hm as [-> _].
  erewrite effectOf_normal in Hrun; [|apply removeObsolete_run].
  injection Hrun as <-. exists sorted', counts. split_and!; [done..|].
  simpl. rewrite lookup_withoutObsolete.
  rewrite decide_False by (by intros (? & _)).
  rewrite lookup_writeAll_notin by (by intros ?%releasesWrite_names).
  apply lookup_insert_eq.
Qed.
(** X15. After a run that returns, if the write of [categories.json] is not
    refused and some descriptor that loaded has a category whose manifest
    can be written, [categories.json] lists, once each, the categories of
    the loaded descriptors whose manifest the file system lets the run
    write, each with the number of loaded descriptors of the category;
    [totalCategories] is their number, and [totalApps] is the number of all
    the descriptors that loaded, those of the categories left out
    included. *)
Theorem X15_categories_index_totals d :
  resultOf (main env d) = Normal () →
  writeError env "categories.json" = None →
  (∃ metadata category,
     metadata ∈ loadedDescriptors env (metadataFilesOf env)
     ∧ hasCategory category metadata
     ∧ writeError env (releaseFileNameOf category) = None) →
  ∃ categories counts,
    fileIn (dirOf (main env d)) "categories.json"
    = Some (JSON_stringify
              (JObj [("totalCategories", jsonNat (length categories));
                     ("totalApps",
                      jsonNat (length (loadedDescriptors env (metadataFilesOf env))));
                     ("categories", JArr (countJson <$> counts))]))
    ∧ NoDup categories
    ∧ (∀ category,
         category ∈ categories ↔
         (∃ metadata, metadata ∈ loadedDescriptors env (metadataFilesOf env)
                      ∧ hasCategory category metadata)
         ∧ writeError env (releaseFileNameOf category) = None)
    ∧ counts
      ≡ₚ (λ category,
            {| cc_name := category; cc_slug := categorySlug category;
               cc_count :=
                 length (filter (hasCategory category)
                           (loadedDescriptors env (metadataFilesOf env))) |})
         <$> categories.
Proof.
  intros Hresult Hwrite (metadata & category & Hloaded & Hcategory & Hmanifest).
  pose proof (main_returned env d Hresult) as Hrun.
  fold (metadataFilesOf env) in Hrun. rewrite effectOf_pair, Hresult in Hrun.
  rewrite bool_decide_false in Hrun.
  2:{ destruct (metadataFilesOf env); [by apply elem_of_nil in Hloaded | done]. }
  symmetry in Hrun. unfold generate in Hrun.
  run_in Hrun as [[categorizedApps processedCount] skippedCount].
  apply (grouping_grouped env _ _ _ _ []) in Hm as Hgrouped.
  2:{ split_and!; [constructor|done..]. }
  simpl in Hgrouped.
  assert (∀ category',
            category' ∈ writableCategories env categorizedApps.*1 ↔
            (∃ metadata, metadata ∈ loadedDescriptors env (metadataFilesOf env)
                         ∧ hasCategory category' metadata)
            ∧ writeError env (releaseFileNameOf category') = None) as Hcategories.
  { intros category'. unfold writableCategories.
    rewrite list_elem_of_filter, (elem_of_grouped_keys _ _ _ Hgrouped). tauto. }
  apply publish_categories_index in Hrun
    as (sorted & counts & Hsorted & Hcounts & Hfile); [|by destruct Hgrouped|done|].
  2:{ intros Hnone. assert (category ∈ writableCategories env categorizedApps.*1)
        as Hin by (apply Hcategories; eauto).
      rewrite Hnone in Hin. by apply elem_of_nil in Hin. }
  exists (writableCategories env categorizedApps.*1), counts. split_and!.
  - rewrite Hfile. unfold categoriesData. rewrite foldl_lengths. simpl.
    destruct Hgrouped as (_ & _ & Hperm).
    by rewrite (sortedGroup_concat _ _ Hsorted), Hperm.
  - apply NoDup_filter. by destruct Hgrouped.
  - done.
  - rewrite (arraySort_perm _ _ _ Hcounts).
    erewrite list_fmap_ext; [done|]. intros _ category' _. simpl. f_equal.
    by rewrite (groupSize_sorted _ _ _ Hsorted),
      (groupSize_grouped _ _ _ Hgrouped).
Qed.
End Totals.

Section Stale.
Context `{Host} (env : Env).

Lemma manifestWrites_names sorted file :
  file ∈ (manifestWrites env sorted).*1 → isCategoryFile file.
Proof.
  intros ([file' text] & -> & Hin)%list_elem_of_fmap.
  apply elem_of_manifestWrites in Hin as (category & _ & _ & _ & _ & _ & -> & _).
  simpl. by rewrite isCategoryFile_releaseFileNameOf.
Qed.

Lemma publish_categories_untouched categorizedApps processedCount skippedCount d d' :
  NoDup categorizedApps.*1 →
  effectOf (publish env categorizedApps processedCount skippedCount d)
  = (Normal (), d') →
  is_Some (writeError env "categories.json")
  ∨ writableCategories env categorizedApps.*1 = [] →
  fileIn d' "categories.json" = fileIn d "categories.json".
Proof.
  intros Hnodup Hrun Hrefused. unfold publish in Hrun.
  erewrite effectOf_normal in Hrun; [|done].
  rewrite effectOf_ensureReleasesDir in Hrun.
  run_in Hrun as [[sorted releaseFiles] categoriesWithReleases].
  pose proof (categoryLoop_categories _ _ _ _ _ _ _ _ _ _ Hm) as Hcats.
  simpl in Hcats. subst categoriesWithReleases.
  apply (categoryLoop_completed env categorizedApps []) in Hm
    as (sorted' & -> & Hsorted & -> & ->); [|done].
  simpl in Hrun. run_in Hrun as [].
  assert (d0 = Some (writeAll (manifestWrites env sorted') (default ∅ d))) as ->.
  { unfold writeCategoriesIndex in Hm. case_bool_decide as Hsome.
    2:{ by injection Hm as <-. }
    destruct Hrefused as [[message Hwrite]|Hnone].
    2:{ rewrite Hnone in Hsome. simpl in Hsome. lia. }
    destruct (arraySort countsByName _) as [counts|e] eqn:Hcounts.
    2:{ by erewrite effectOf_throw in Hm. }
    erewrite effectOf_normal in Hm; [|done].
    erewrite effectOf_normal in Hm; [|unfold writeFileSync; by rewrite Hwrite].
    by injection Hm as <-. }
  run_in Hrun as []. apply writeReleasesIndex_completed in Hm0 as [-> _].
  erewrite effectOf_normal in Hrun; [|apply removeObsolete_run].
  injection Hrun as <-. simpl. rewrite lookup_withoutObsolete.
  rewrite decide_False by (by intros (? & _)).
  rewrite lookup_writeAll_notin by (by intros ?%releasesWrite_names).
  rewrite lookup_writeAll_notin by (by intros ?%manifestWrites_names).
  destruct d; [done|]. simpl. by rewrite lookup_empty.
Qed.

(** X16. After a run that returns, [categories.json] is as it was when its
    write is refused or when no manifest could be written: no descriptor
    loaded, or the write of the manifest of every category is refused. *)
Theorem X16_categories_index_left d :
  resultOf (main env d) = Normal () →
  is_Some (writeError env "categories.json")
  ∨ (∀ metadata category,
       metadata ∈ loadedDescriptors env (metadataFilesOf env) →
       hasCategory category metadata →
       is_Some (writeError env (releaseFileNameOf category))) →
  fileIn (dirOf (main env d)) "categories.json" = fileIn d "categories.json".
Proof.
  intros Hresult Hrefused.
  pose proof (main_returned env d Hresult) as Hrun.
  fold (metadataFilesOf env) in Hrun. rewrite effectOf_pair, Hresult in Hrun.
  case_bool_decide; [by injection Hrun as ->|].
  symmetry in Hrun. unfold generate in Hrun.
  run_in Hrun as [[categorizedApps processedCount] skippedCount].
  destruct (grouping_untouched env (metadataFilesOf env) ([], 0%nat, 0%nat))
    as [r Hgroup].
  pose proof Hm as Hd. rewrite Hgroup in Hd. injection Hd as -> <-.
  apply (grouping_grouped env _ _ _ _ []) in Hm as Hgrouped.
  2:{ split_and!; [constructor|done..]. }
  simpl in Hgrouped.
  eapply publish_categories_untouched; [by destruct Hgrouped|done|].
  destruct Hrefused as [?|Hrefused]; [by left|right].
  destruct (writableCategories env categorizedApps.*1) as [|category l] eqn:Hl; [done|].
  assert (category ∈ writableCategories env categorizedApps.*1) as Hin.
  { rewrite Hl. by left. }
  apply list_elem_of_filter in Hin as [Hwrite Hin].
  apply (elem_of_grouped_keys _ _ _ Hgrouped) in Hin
    as (metadata & Hloaded & Hcategory).
  destruct (Hrefused metadata category Hloaded Hcategory) as [message Hmessage].
  congruence.
Qed.

(** X9. After a run that returns, the [releases] directory exists exactly
    when it existed before or a descriptor file was found. *)
Theorem X9_directory_made d :
  resultOf (main env d) = Normal () →
  is_Some (dirOf (main env d)) ↔ is_Some d ∨ metadataFilesOf env ≠ [].
Proof.
  intros Hresult.
  destruct (decide (metadataFilesOf env = [])) as [Hnone|Hfound].
  - pose proof (main_returned env d Hresult) as Hrun.
    fold (metadataFilesOf env) in Hrun. rewrite Hnone, effectOf_pair in Hrun.
    simpl in Hrun. injection Hrun as _ ->. tauto.
  - destruct (main_completed env d Hfound Hresult)
      as (categorizedApps & sorted & others & _ & _ & _ & _ & ->).
    split; [by right | by eexists].
Qed.
End Stale.

Section RefusedWrites.
Context `{Host} (env : Env).

(** X17. After a run that returns, [releases.json] is as it was when its
    write is refused or when no descriptor loaded. *)
Theorem X17_releases_index_left d :
  resultOf (main env d) = Normal () →
  is_Some (writeError env "releases.json")
  ∨ loadedDescriptors env (metadataFilesOf env) = [] →
  fileIn (dirOf (main env d)) "releases.json" = fileIn d "releases.json".
Proof.
  intros Hresult Hrefused.
  destruct (decide (metadataFilesOf env = [])) as [Hnone|Hfound].
  { pose proof (main_returned env d Hresult) as Hrun.
    fold (metadataFilesOf env) in Hrun. rewrite Hnone, effectOf_pair in Hrun.
    simpl in Hrun. by injection Hrun as _ ->. }
  destruct (main_completed env d Hfound Hresult)
    as (categorizedApps & sorted & others & Hgrouped & Hsorted & _ & Hothers & ->).
  simpl. rewrite lookup_withoutObsolete.
  rewrite decide_False by (by intros (? & _)).
  rewrite lookup_writeAll_notin.
  { destruct d; [done|]. simpl. by rewrite lookup_empty. }
  rewrite !fmap_app, !elem_of_app. intros [Hin|[Hin|Hin]].
  - by apply manifestWrites_names in Hin.
  - by apply Hothers in Hin.
  - revert Hin. unfold releasesWrite.
    destruct Hrefused as [[message ->]|Hnone].
    + case_bool_decide; [|by intros ?%elem_of_nil].
      destruct (_ ≫= _); by intros ?%elem_of_nil.
    + destruct Hgrouped as (_ & Hgroups & _).
      assert (categorizedApps = []) as ->.
      { destruct categorizedApps as [|[category apps] rest]; [done|].
        specialize (Hgroups category). rewrite Hnone in Hgroups. simpl in Hgroups.
        by rewrite bool_decide_true in Hgroups. }
      apply Forall2_nil_inv_l in Hsorted as ->. by intros ?%elem_of_nil.
Qed.

(** X19. After a run that found descriptor files and returns, a category
    file whose write the file system refuses and whose removal it does not
    is not in the directory: a manifest that could not be rewritten is
    removed as obsolete. *)
Theorem X19_refused_manifest_removed d file :
  isCategoryFile file →
  is_Some (writeError env file) →
  unlinkError env file = None →
  metadataFilesOf env ≠ [] →
  resultOf (main env d) = Normal () →
  fileIn (dirOf (main env d)) file = None.
Proof.
  intros Hcat [message Hwrite] Hunlink Hfound Hresult.
  destruct (main_completed env d Hfound Hresult)
    as (categorizedApps & sorted & others & _ & _ & _ & _ & ->).
  simpl. apply left_obsolete; [done..|].
  intros ([file' text] & -> & Hin)%list_elem_of_fmap.
  apply elem_of_manifestWrites in Hin as (category & _ & _ & _ & Hok & _ & -> & _).
  simpl in Hwrite. congruence.
Qed.
End RefusedWrites.


(** ** The further properties, on the scenario *)

Lemma X2_witness :
  @loadMetadata codeUnitHost fooBarEnv "/app/scripts/../repositories/foo/metadata.json"
  = (Some (setOwn "filePath" (JStr "/app/scripts/../repositories/foo")
             (descriptor "Foo" "Tools" "1.0" "abc" "o1" "r1" "/a/")),
     []).
Proof.
  apply (proj2 (@X2_loadMetadata_accepts codeUnitHost fooBarEnv
                  "/app/scripts/../repositories/foo/metadata.json" _ _)).
  exists (descriptor "Foo" "Tools" "1.0" "abc" "o1" "r1" "/a/").
  split_and!; [reflexivity| |reflexivity..].
  repeat constructor; eexists; (split_and!; [reflexivity|discriminate..]).
Defined.

Lemma X3_witness :
  getOwn "filePath"
    (setOwn "filePath" (JStr "/app/scripts/../repositories/foo")
       (descriptor "Foo" "Tools" "1.0" "abc" "o1" "r1" "/a/"))
  = Some (JStr (replaceBackslashes
                  (@path_dirname codeUnitHost
                     "/app/scripts/../repositories/foo/metadata.json")))
  ∧ (∀ field, field ≠ "filePath" →
       getOwn field
         (setOwn "filePath" (JStr "/app/scripts/../repositories/foo")
            (descriptor "Foo" "Tools" "1.0" "abc" "o1" "r1" "/a/"))
       = getOwn field (descriptor "Foo" "Tools" "1.0" "abc" "o1" "r1" "/a/"))
  ∧ (∀ i, String.get i
            (replaceBackslashes
               (@path_dirname codeUnitHost
                  "/app/scripts/../repositories/foo/metadata.json"))
          ≠ Some "\"%char).
Proof.
  apply (@X3_loadMetadata_filePath codeUnitHost fooBarEnv
           "/app/scripts/../repositories/foo/metadata.json").
  - reflexivity.
  - reflexivity.
Defined.


Lemma X5_witness :
  ∃ e,
    effectOf (@main codeUnitHost constructorEnv staleDir) = (Throw e, staleDir)
    ∧ (@script codeUnitHost constructorEnv staleDir).1 = (1%nat, staleDir).
Proof.
  apply (@X5_prototype_category_throws codeUnitHost constructorEnv staleDir
           (setOwn "filePath" (JStr "/app/scripts/../repositories/foo")
              (descriptor "Foo" "constructor" "1.0" "abc" "o1" "r1" "/a/"))
           "constructor").
  - vm_compute. left.
  - reflexivity.
  - reflexivity.
Defined.

Lemma X6_witness :
  ∃ e,
    @main codeUnitHost objectAllowListEnv staleDir
    = (Throw e, staleDir, [ConsoleLog "🔄 Generating release files..."])
    ∧ (@script codeUnitHost objectAllowListEnv staleDir).1 = (1%nat, staleDir).
Proof.
  apply (@X6_allow_list_not_array codeUnitHost objectAllowListEnv
           (JObj [("categories", JArr [JStr "Tools"])])).
  - reflexivity.
  - discriminate.
Defined.


Lemma X8_witness :
  resultOf (@main codeUnitHost noVersionEnv staleDir) = Normal ()
  ∧ is_Some (dirOf (@main codeUnitHost noVersionEnv staleDir))
  ∧ ∀ file,
      fileIn (dirOf (@main codeUnitHost noVersionEnv staleDir)) file
      = if decide (isCategoryFile file ∧ unlinkError noVersionEnv file = None)
        then None else fileIn staleDir file.
Proof.
  apply (@X8_no_descriptor_loads codeUnitHost noVersionEnv staleDir).
  - exists "". reflexivity.
  - discriminate.
  - intros filePath Hin. vm_compute in Hin.
    apply elem_of_cons in Hin as [->|Hin]; [reflexivity|].
    by apply elem_of_nil in Hin.
Defined.

Lemma X9_witness :
  is_Some (dirOf (@main codeUnitHost fooBarEnv None))
  ↔ is_Some (None : releasesDir) ∨ @metadataFilesOf codeUnitHost fooBarEnv ≠ [].
Proof.
  apply (@X9_directory_made codeUnitHost fooBarEnv None).
  vm_compute. reflexivity.
Defined.

Lemma X12_witness :
  noDoubleSlash "o2/r2/b/Bar" ∧ collapseSlashes "o2/r2/b/Bar" = "o2/r2/b/Bar".
Proof.
  apply (X12_release_slug_slashes
           (descriptor "Bar" "Tools" "2.0" "def" "o2" "r2" "/b/")
           {| re_name := Some (JStr "Bar"); re_version := Some (JStr "2.0");
              re_slug := "o2/r2/b/Bar" |}).
  reflexivity.
Defined.



Lemma X15_witness :
  ∃ categories counts,
    fileIn (dirOf (@main codeUnitHost fooBarEnv None)) "categories.json"
    = Some (JSON_stringify
              (JObj [("totalCategories", jsonNat (length categories));
                     ("totalApps",
                      jsonNat (length (@loadedDescriptors codeUnitHost fooBarEnv
                                         (@metadataFilesOf codeUnitHost fooBarEnv))));
                     ("categories", JArr (countJson <$> counts))]))
    ∧ NoDup categories
    ∧ (∀ category,
         category ∈ categories ↔
         (∃ metadata,
            metadata ∈ @loadedDescriptors codeUnitHost fooBarEnv
                         (@metadataFilesOf codeUnitHost fooBarEnv)
            ∧ hasCategory category metadata)
         ∧ writeError fooBarEnv (releaseFileNameOf category) = None)
    ∧ counts
      ≡ₚ (λ category,
            {| cc_name := category; cc_slug := categorySlug category;
               cc_count :=
                 length (filter (hasCategory category)
                           (@loadedDescriptors codeUnitHost fooBarEnv
                              (@metadataFilesOf codeUnitHost fooBarEnv))) |})
         <$> categories.
Proof.
  apply (@X15_categories_index_totals codeUnitHost fooBarEnv None).
  - vm_compute. reflexivity.
  - reflexivity.
  - exists (setOwn "filePath" (JStr "/app/scripts/../repositories/foo")
              (descriptor "Foo" "Tools" "1.0" "abc" "o1" "r1" "/a/")), "Tools".
    split_and!; [vm_compute; left|reflexivity..].
Defined.

Lemma X16_witness :
  fileIn (dirOf (@main codeUnitHost refusedManifestEnv staleDir)) "categories.json"
  = fileIn staleDir "categories.json".
Proof.
  apply (@X16_categories_index_left codeUnitHost refusedManifestEnv staleDir).
  - vm_compute. reflexivity.
  - right. intros metadata category Hin Hcategory. vm_compute in Hin.
    apply elem_of_cons in Hin as [->|Hin];
      [|apply elem_of_cons in Hin as [->|Hin]; [|by apply elem_of_nil in Hin]];
      vm_compute in Hcategory; injection Hcategory as <-; by eexists.
Defined.

Lemma X17_witness :
  fileIn (dirOf (@main codeUnitHost noVersionEnv staleDir)) "releases.json"
  = fileIn staleDir "releases.json".
Proof.
  apply (@X17_releases_index_left codeUnitHost noVersionEnv staleDir).
  - vm_compute. reflexivity.
  - right. reflexivity.
Defined.

Lemma X18_witness :
  fileIn (dirOf (@main codeUnitHost lockedEnv staleDir)) "category-games.json"
  = fileIn staleDir "category-games.json".
Proof.
  apply (@X18_refused_removal_keeps_file codeUnitHost lockedEnv staleDir
           "category-games.json").
  - reflexivity.
  - by eexists.
  - vm_compute. reflexivity.
  - intros category metadata Hin Hcategory Hname. vm_compute in Hin.
    apply elem_of_cons in Hin as [->|Hin];
      [|apply elem_of_cons in Hin as [->|Hin]; [|by apply elem_of_nil in Hin]];
      vm_compute in Hcategory; injection Hcategory as <-; discriminate Hname.
Defined.

Lemma X19_witness :
  fileIn (dirOf (@main codeUnitHost refusedManifestEnv toolsDir))
    "category-tools.json"
  = None.
Proof.
  apply (@X19_refused_manifest_removed codeUnitHost refusedManifestEnv toolsDir
           "category-tools.json").
  - reflexivity.
  - by eexists.
  - reflexivity.
  - discriminate.
  - vm_compute. reflexivity.
Defined.
